(** * A shallow embedding of [raytracer.cpp]

    The program is a backward ray tracer over spheres and point lights.  All
    of its arithmetic is on C++ [double]s.  The embedding is written once,
    over an interface [Arith] of the operations the program uses on a
    [double], and read at two instances:

    - [float_arith]: IEEE-754 binary64 (Rocq's primitive floats), which is
      what the compiled program computes with, and which evaluates;
    - [real_arith]: the same operations and the same constants with no
      rounding, no overflow and no NaN.

    What is said of the program is proved for every instance, with the laws
    of the order that the doubles have where the signs of the compared
    values matter, or on the doubles themselves.  A statement over the reals
    says what the formulas of the program compute in exact arithmetic; it
    stands next to what the doubles do at the same place. *)

From Stdlib Require Import Floats.Floats.
From Stdlib Require Uint63.
From Stdlib Require Import Bool List ZArith Reals Lra Lia.
Import ListNotations.

(** ** The operations on a [double] *)

Class Arith (D : Type) : Type := {
  dzero : D;                    (* 0 *)
  dunit : D;                    (* 1 *)
  dtwo : D;                     (* 2 *)
  dhalf : D;                    (* 0.5 *)
  dtenth : D;                   (* 0.1 *)
  deps : D;                     (* 0.00001 *)
  dmax : D;                     (* std::numeric_limits<double>::max() *)
  dofnat : nat -> D;            (* an unsigned int or an int literal, as a double *)
  dadd : D -> D -> D;
  dsub : D -> D -> D;
  dmul : D -> D -> D;
  ddiv : D -> D -> D;
  dneg : D -> D;
  dsqrt : D -> D;
  dlt : D -> D -> bool          (* a < b *)
}.

Declare Scope dbl_scope.
Delimit Scope dbl_scope with dbl.
Infix "+" := dadd : dbl_scope.
Infix "-" := dsub : dbl_scope.
Infix "*" := dmul : dbl_scope.
Infix "/" := ddiv : dbl_scope.
Notation "- a" := (dneg a) : dbl_scope.
Infix "<" := dlt : dbl_scope.
(* [a > b] on doubles is [b < a]: both are false when either is a NaN. *)
Notation "a > b" := (dlt b a) (only parsing) : dbl_scope.

#[global] Instance float_arith : Arith PrimFloat.float := {
  dzero := 0%float;
  dunit := 1%float;
  dtwo := 2%float;
  dhalf := 0.5%float;
  dtenth := 0x1.999999999999ap-4%float;
  deps := 0x1.4f8b588e368f1p-17%float;
  dmax := 0x1.fffffffffffffp1023%float;
  dofnat := fun n => of_uint63 (Uint63.of_Z (Z.of_nat n));
  dadd := PrimFloat.add;
  dsub := PrimFloat.sub;
  dmul := PrimFloat.mul;
  ddiv := PrimFloat.div;
  dneg := PrimFloat.opp;
  dsqrt := PrimFloat.sqrt;
  dlt := PrimFloat.ltb
}.

Definition Rltb (a b : R) : bool := if Rlt_dec a b then true else false.

(* The constants are the values of the doubles of [float_arith]:
   0x1999999999999a / 2^56 for [0.1], 0x14f8b588e368f1 / 2^69 for [0.00001]
   and (2^53 - 1) * 2^971 for the largest double. *)
#[global] Instance real_arith : Arith R := {
  dzero := 0%R;
  dunit := 1%R;
  dtwo := 2%R;
  dhalf := (1 / 2)%R;
  dtenth := (7205759403792794 / 72057594037927936)%R;
  deps := (5902958103587057 / 590295810358705651712)%R;
  dmax := IZR ((2 ^ 53 - 1) * 2 ^ 971);
  dofnat := INR;
  dadd := Rplus;
  dsub := Rminus;
  dmul := Rmult;
  ddiv := Rdiv;
  dneg := Ropp;
  dsqrt := sqrt;
  dlt := Rltb
}.

Local Open Scope dbl_scope.

(** ** [struct Vec3d] *)

Module Vec3d.
Section Defs.
Context {D : Type} {arith : Arith D}.

Record t : Type := mk { x : D; y : D; z : D }.

(* operator-= / operator- *)
Definition sub (lhs rhs : t) : t :=
  mk (x lhs - x rhs) (y lhs - y rhs) (z lhs - z rhs).

(* operator/= / operator/ *)
Definition div (lhs : t) (v : D) : t :=
  mk (x lhs / v) (y lhs / v) (z lhs / v).

(* operator+= / operator+ *)
Definition add (lhs rhs : t) : t :=
  mk (x lhs + x rhs) (y lhs + y rhs) (z lhs + z rhs).

(* operator*= / operator* *)
Definition mul (lhs : t) (val : D) : t :=
  mk (x lhs * val) (y lhs * val) (z lhs * val).

Definition dotProduct (v vec2 : t) : D :=
  (x v * x vec2) + (y v * y vec2) + (z v * z vec2).

Definition length (v : t) : D := dsqrt (dotProduct v v).

Definition normalize (v : t) : t :=
  let l := length v in
  div v l.
End Defs.
Arguments t D : clear implicits.
End Vec3d.

(** ** [struct Ray] *)

Module Ray.
Section Defs.
Context {D : Type} {arith : Arith D}.

Record t : Type := mk { origin : Vec3d.t D; direction : Vec3d.t D }.

Definition getPoint (ray : t) (dist : D) : Vec3d.t D :=
  Vec3d.add (origin ray) (Vec3d.mul (direction ray) dist).
End Defs.
Arguments t D : clear implicits.
End Ray.

(** ** [std::max], [std::min] and [clamp] *)

Section MinMax.
Context {D : Type} {arith : Arith D}.

(* std::max(a, b) is (a < b) ? b : a *)
Definition std_max (a b : D) : D := if a < b then b else a.

(* std::min(a, b) is (b < a) ? b : a *)
Definition std_min (a b : D) : D := if b < a then b else a.

Definition clamp (min max val : D) : D :=
  let val := if val < min then min else val in
  let val := if val > max then max else val in
  val.
End MinMax.

(** ** [struct Sphere]

    [intersect] writes its result through the reference [dist]; the
    embedding takes the value the caller's variable holds at the call and
    returns, with the boolean, the value it holds afterwards. *)

Module Sphere.
Section Defs.
Context {D : Type} {arith : Arith D}.

Record t : Type := mk { center : Vec3d.t D; radius : D }.

(* The three quantities computed before the discriminant test. *)
Definition val1 (s : t) (ray : Ray.t D) : D :=
  Vec3d.dotProduct (Vec3d.sub (Ray.origin ray) (center s)) (Ray.direction ray).

Definition val2 (s : t) (ray : Ray.t D) : D :=
  Vec3d.length (Vec3d.sub (Ray.origin ray) (center s)).

Definition val3 (s : t) (ray : Ray.t D) : D :=
  val1 s ray * val1 s ray - val2 s ray * val2 s ray
    + radius s * radius s.

Definition dist1 (s : t) (ray : Ray.t D) : D :=
  - val1 s ray + dsqrt (val3 s ray).

Definition dist2 (s : t) (ray : Ray.t D) : D :=
  - val1 s ray - dsqrt (val3 s ray).

(* The if / else-if of lines 150-154: the value assigned to [dist], or
   [None] when neither branch is taken and [dist] is left as it was. *)
Definition assigned (d1 d2 : D) : option D :=
  if (d1 < dzero) || (d2 < dzero) then Some (std_max d1 d2)
  else if (d1 > dzero) && (d2 > dzero) then Some (std_min d1 d2)
  else None.

Definition intersect (s : t) (ray : Ray.t D) (dist : D) : bool * D :=
  if val3 s ray < dzero then (false, dist)
  else
    let dist :=
      match assigned (dist1 s ray) (dist2 s ray) with
      | Some d => d
      | None => dist
      end in
    (dist > deps, dist).

Definition getNormal (s : t) (P : Vec3d.t D) : Vec3d.t D :=
  let n := Vec3d.sub P (center s) in
  let n := Vec3d.div n (radius s) in
  n.
End Defs.
Arguments t D : clear implicits.
End Sphere.

(** ** [struct Color] *)

Module Color.
Section Defs.
Context {D : Type} {arith : Arith D}.

Record t : Type := mk { r : D; g : D; b : D }.

(* Color() *)
Definition default : t := mk dzero dzero dzero.

(* operator*=(double) / operator*(Color, double) *)
Definition scale (lhs : t) (d : D) : t :=
  mk (r lhs * d) (g lhs * d) (b lhs * d).

(* operator*=(Color) / operator*(Color, Color) *)
Definition mul (lhs c : t) : t :=
  mk (r lhs * r c) (g lhs * g c) (b lhs * b c).

(* operator+= / operator+ *)
Definition add (lhs rhs : t) : t :=
  mk (r lhs + r rhs) (g lhs + g rhs) (b lhs + b rhs).

Definition clamp (c : t) (min max : D) : t :=
  mk (clamp min max (r c)) (clamp min max (g c)) (clamp min max (b c)).

(* mult *)
Definition mult (c : t) (d : D) : t :=
  mk (r c * d) (g c * d) (b c * d).

(* round, over the [round] of <math.h> that it applies to each channel *)
Definition round (libm_round : D -> D) (c : t) : t :=
  mk (libm_round (r c)) (libm_round (g c)) (libm_round (b c)).

Definition white : t := mk dunit dunit dunit.
Definition black : t := default.
Definition red : t := mk dunit dzero dzero.
End Defs.
Arguments t D : clear implicits.
End Color.

(** ** [struct Light] *)

Module Light.
Section Defs.
Context {D : Type} {arith : Arith D}.
Record t : Type := mk { pos : Vec3d.t D; color : Color.t D }.

(* Light(Vec3d pos_) *)
Definition of_pos (pos_ : Vec3d.t D) : t := mk pos_ Color.white.
End Defs.
Arguments t D : clear implicits.
End Light.

(** ** [struct Object]

    The abstract base class: its two virtual member functions.  [Sphere] is
    the one class of the program that derives from it. *)

Module Object.
Section Defs.
Context {D : Type} {arith : Arith D}.

Record t : Type := mk {
  intersect : Ray.t D -> D -> bool * D;
  getNormal : Vec3d.t D -> Vec3d.t D
}.

Definition of_Sphere (s : Sphere.t D) : t :=
  mk (Sphere.intersect s) (Sphere.getNormal s).
End Defs.
Arguments t D : clear implicits.
End Object.

(** ** The body of the pixel loop of [main]

    [tmpdist] is declared without an initialiser and is handed to every
    [intersect] call of the pixel, of the search for the nearest object and
    of the shadow tests alike, so its value is threaded through all of
    them; the value it holds before the first call is a parameter. *)

Section Main.
Context {D : Type} {arith : Arith D}.

(* Lines 369-376, one iteration: the state is (dist, tmpdist, curo). *)
Definition nearest_step (ray : Ray.t D)
    (st : D * D * option (Object.t D)) (o : Object.t D)
    : D * D * option (Object.t D) :=
  let '(dist, tmpdist, curo) := st in
  let '(hit, tmpdist) := Object.intersect o ray tmpdist in
  if hit then
    if tmpdist < dist then (tmpdist, tmpdist, Some o)
    else (dist, tmpdist, curo)
  else (dist, tmpdist, curo).

Definition nearest (objects : list (Object.t D)) (ray : Ray.t D)
    (tmpdist : D) : D * D * option (Object.t D) :=
  fold_left (nearest_step ray) objects (dmax, tmpdist, None).

(* Lines 390-395: the loop leaves at the first object that reports a hit. *)
Fixpoint blocked (objects : list (Object.t D)) (shadow_ray : Ray.t D)
    (tmpdist : D) : bool * D :=
  match objects with
  | [] => (false, tmpdist)
  | o :: rest =>
      let '(hit, tmpdist) := Object.intersect o shadow_ray tmpdist in
      if hit then (true, tmpdist) else blocked rest shadow_ray tmpdist
  end.

(* Lines 382-402, one iteration: the state is (px, tmpdist). *)
Definition light_step (objects : list (Object.t D)) (scolor : Color.t D)
    (pintersect n : Vec3d.t D)
    (st : Color.t D * D) (l : Light.t D) : Color.t D * D :=
  let '(px, tmpdist) := st in
  let lv := Vec3d.normalize (Vec3d.sub (Light.pos l) pintersect) in
  let shadow_ray := Ray.mk pintersect lv in
  let '(inShadow, tmpdist) := blocked objects shadow_ray tmpdist in
  if inShadow then (px, tmpdist)
  else
    let diff_factor := Vec3d.dotProduct n lv in
    (Color.add px
       (Color.scale (Color.mul scolor (Light.color l)) diff_factor),
     tmpdist).

(* Lines 405-407. *)
Definition finish (scolor px : Color.t D) : Color.t D :=
  let px := Color.clamp px dzero dunit in
  let px := Color.add px (Color.scale scolor dtenth) in
  Color.clamp px dzero dunit.

(* Lines 362-415: the colour stored for the pixel whose primary ray is
   [ray]; [tmpdist] is what the uninitialised variable happens to hold. *)
Definition pixel (objects : list (Object.t D)) (lights : list (Light.t D))
    (background scolor : Color.t D) (ray : Ray.t D) (tmpdist : D)
    : Color.t D :=
  let '(dist, tmpdist, curo) := nearest objects ray tmpdist in
  let '(px, intersect) :=
    match curo with
    | Some o =>
        let pintersect := Ray.getPoint ray dist in
        let n := Object.getNormal o pintersect in
        let '(px, _) :=
          fold_left (light_step objects scolor pintersect n) lights
            (Color.default, tmpdist) in
        (finish scolor px, true)
    | None => (Color.default, false)
    end in
  if negb intersect then background else px.
End Main.

(** ** The two loops of [main] over the pixels

    [M_PI] and [tan] come from <math.h>; they are taken as they are given.
    The image is the list of the colours in the order [main] stores them
    through [img_ptr].  [tmpdist] is a fresh uninitialised variable at every
    pixel: [garbage x y] is the value it happens to hold there. *)

Section Render.
Context {D : Type} {arith : Arith D}.
Variable M_PI : D.
Variable tan : D -> D.

Definition deg2rad (ang : D) : D := ang * M_PI / dofnat 180.

(* Lines 353-360. *)
Definition primary_ray (W H : nat) (FOV : D) (x y : nat) : Ray.t D :=
  let ASPECT_RATIO := dofnat W / dofnat H in
  let px_ndc := (dofnat x + dhalf) / dofnat W in
  let py_ndc := (dofnat y + dhalf) / dofnat H in
  let cam_x :=
    (dtwo * px_ndc - dunit) * ASPECT_RATIO * tan (deg2rad FOV / dtwo) in
  let cam_y := (dunit - dtwo * py_ndc) * tan (deg2rad FOV / dtwo) in
  let d := Vec3d.normalize (Vec3d.mk cam_x cam_y (- dunit)) in
  let origin := Vec3d.mk dzero dzero dzero in
  Ray.mk origin d.

(* Lines 350-417. *)
Definition render (W H : nat) (FOV : D) (objects : list (Object.t D))
    (lights : list (Light.t D)) (background scolor : Color.t D)
    (garbage : nat -> nat -> D) : list (Color.t D) :=
  flat_map
    (fun y =>
       map
         (fun x =>
            pixel objects lights background scolor
              (primary_ray W H FOV x y) (garbage x y))
         (seq 0 W))
    (seq 0 H).
End Render.

(** ** The loop of [main] that writes the image

    What is handed to the stream, pixel by pixel; [round] comes from
    <math.h> and is taken as it is given. *)

Section Output.
Context {D : Type} {arith : Arith D}.
Variable round : D -> D.

(* Lines 421-426. *)
Definition quantize (MAX_VAL : nat) (img : list (Color.t D))
    : list (Color.t D) :=
  map (fun px => Color.round round (Color.scale px (dofnat MAX_VAL))) img.
End Output.

(** ** [check_op_overloading]

    The five values it sends to [cout], in order. *)

Section SelfCheck.
Context {D : Type} {arith : Arith D}.

Definition check_op_overloading
    : Vec3d.t D * Vec3d.t D * Color.t D * Color.t D * Color.t D :=
  let v1 := Vec3d.mk dzero dzero dzero in
  let v2 := Vec3d.mk (dofnat 1) (dofnat 2) (dofnat 3) in
  let v1 := Vec3d.add v1 v2 in
  let c1 := Color.default in
  let c2 := Color.mk (dofnat 1) (dofnat 2) (dofnat 3) in
  let c1 := Color.add c1 c2 in
  (v1, Vec3d.mul v1 (dofnat 2), c1, Color.mul c1 c2,
   Color.scale c1 (dofnat 2)).
End SelfCheck.

(** ** The scene of [main], on doubles *)

Section MainScene.
Local Open Scope float_scope.

(* Lines 328-334. *)
Definition main_objects : list (Object.t float) :=
  [ Object.of_Sphere (Sphere.mk (Vec3d.mk 0 0 (-20)) 5);
    Object.of_Sphere (Sphere.mk (Vec3d.mk 2 1 (-15)) 1);
    Object.of_Sphere (Sphere.mk (Vec3d.mk 4 4 (-22)) 2.5);
    Object.of_Sphere (Sphere.mk (Vec3d.mk 80 (-6) (-150)) 5);
    Object.of_Sphere (Sphere.mk (Vec3d.mk (-4) 4 (-5)) 2.5) ].

(* Lines 337-338. *)
Definition main_background : Color.t float := Color.mk 0 0.5 0.5.

Definition main_scolor : Color.t float := Color.red.

(* Lines 345-346. *)
Definition main_lights : list (Light.t float) :=
  [ Light.mk (Vec3d.mk 30 30 (-2)) Color.white ].

(* M_PI as a double, and a stand-in for [tan]: the double nearest to the
   tangent of 50 degrees, at [deg2rad(100)/2], the one argument [main]
   calls it with. *)
Definition M_PI_double : float := 0x1.921fb54442d18p+1.

Definition tan_half_fov (_ : float) : float := 0x1.3116c3711527ep+0.

(* The image of [main]: W = 800, H = 500, FOV = 100. *)
Definition main_image (garbage : nat -> nat -> float) : list (Color.t float) :=
  render M_PI_double tan_half_fov 800 500 100 main_objects main_lights
    main_background main_scolor garbage.
End MainScene.

(** * Definitions used in the statements *)

(** ** The order on doubles and on reals

    The facts about [<] that the selection of a root relies on.  Both
    instances have them, the doubles by the specification of the primitive
    comparison, NaNs and infinities included. *)

Class SignLaws (D : Type) `{Arith D} : Prop := {
  eps_positive : (dzero < deps) = true;
  lt_asym : forall x y : D, (x < y) = true -> (y < x) = false;
  neg_lt_pos : forall x y : D,
    (x < dzero) = true -> (dzero < y) = true -> (x < y) = true
}.

(** [<] is transitive and zero is below one, for both instances too. *)
Class OrderLaws (D : Type) `{Arith D} : Prop := {
  lt_trans : forall x y z : D,
    (x < y) = true -> (y < z) = true -> (x < z) = true;
  zero_lt_unit : (dzero < dunit) = true
}.

(** The signs that the light loop relies on.  The product of a value above
    zero and a value below zero is below zero, or it is the zero with the
    minus sign, which is what a product too small for a double rounds to;
    and adding such a product to a value that is not above zero gives a
    value that is not above zero. *)
Class ContributionLaws (D : Type) `{Arith D} : Prop := {
  pos_mul_neg : forall x y : D,
    (dzero < x) = true -> (y < dzero) = true ->
    (x * y < dzero) = true \/ x * y = - dzero;
  nonpos_add : forall a c : D,
    (dzero < a) = false ->
    (c < dzero) = true \/ c = - dzero ->
    (dzero < a + c) = false
}.

Section Notions.
Context {D : Type} {arith : Arith D}.

(** The roots have mixed signs: one is below zero and the other above. *)
Definition straddle (d1 d2 : D) : Prop :=
  ((d1 < dzero) = true /\ (dzero < d2) = true) \/
  ((d2 < dzero) = true /\ (dzero < d1) = true).

(** No [intersect] call of the search for the nearest object reports a hit. *)
Fixpoint misses (objects : list (Object.t D)) (ray : Ray.t D) (tmpdist : D)
    : bool :=
  match objects with
  | [] => true
  | o :: rest =>
      let '(hit, tmpdist) := Object.intersect o ray tmpdist in
      negb hit && misses rest ray tmpdist
  end.

(** The light vector and the shadow ray of a light at a hit point. *)
Definition light_vector (pintersect : Vec3d.t D) (l : Light.t D) : Vec3d.t D :=
  Vec3d.normalize (Vec3d.sub (Light.pos l) pintersect).

Definition shadow_ray (pintersect : Vec3d.t D) (l : Light.t D) : Ray.t D :=
  Ray.mk pintersect (light_vector pintersect l).

(** The colour accumulated over the lights, before it is clamped. *)
Definition accumulated (objects : list (Object.t D))
    (lights : list (Light.t D)) (scolor : Color.t D)
    (pintersect n : Vec3d.t D) (tmpdist : D) : Color.t D :=
  fst (fold_left (light_step objects scolor pintersect n) lights
         (Color.default, tmpdist)).

(** What every [intersect] call of a pass over [objects] returns: the
    object, the boolean and the value left in [tmpdist]. *)
Fixpoint reports (objects : list (Object.t D)) (ray : Ray.t D) (tmpdist : D)
    : list (Object.t D * bool * D) :=
  match objects with
  | [] => []
  | o :: rest =>
      let '(hit, tmpdist) := Object.intersect o ray tmpdist in
      (o, hit, tmpdist) :: reports rest ray tmpdist
  end.

(** Every light is found occluded, in the order [main] tests them. *)
Fixpoint all_occluded (objects : list (Object.t D))
    (pintersect : Vec3d.t D) (lights : list (Light.t D)) (tmpdist : D)
    : bool :=
  match lights with
  | [] => true
  | l :: rest =>
      let '(inShadow, tmpdist) :=
        blocked objects (shadow_ray pintersect l) tmpdist in
      inShadow && all_occluded objects pintersect rest tmpdist
  end.

(** A value that is neither below zero nor above one. *)
Definition in_unit (c : D) : Prop :=
  (c < dzero) = false /\ (dunit < c) = false.

(** The spec's clamping of a channel to [0,1], by cases. *)
Definition saturate (v : D) : D :=
  if v < dzero then dzero else if dunit < v then dunit else v.

(** The spec's final value of a channel: the accumulated value clamped to
    [0,1], plus a tenth of the tint, clamped to [0,1] again. *)
Definition shaded_channel (acc tint : D) : D :=
  saturate (saturate acc + tint * dtenth).

Definition shaded (acc scolor : Color.t D) : Color.t D :=
  Color.mk (shaded_channel (Color.r acc) (Color.r scolor))
           (shaded_channel (Color.g acc) (Color.g scolor))
           (shaded_channel (Color.b acc) (Color.b scolor)).

(** The spec's accumulation over the lights, from black, one light at a
    time: a light that the shadow test finds occluded adds nothing, any
    other adds to each channel the tint times its colour times the dot
    product of the normal and the light vector. *)
Definition lit_step (objects : list (Object.t D)) (scolor : Color.t D)
    (pintersect n : Vec3d.t D) (st : Color.t D * D) (l : Light.t D)
    : Color.t D * D :=
  let lv := light_vector pintersect l in
  let dot :=
    Vec3d.x n * Vec3d.x lv + Vec3d.y n * Vec3d.y lv + Vec3d.z n * Vec3d.z lv in
  let px := fst st in
  let occluded := blocked objects (shadow_ray pintersect l) (snd st) in
  (if fst occluded then px
   else Color.mk (Color.r px + Color.r scolor * Color.r (Light.color l) * dot)
                 (Color.g px + Color.g scolor * Color.g (Light.color l) * dot)
                 (Color.b px + Color.b scolor * Color.b (Light.color l) * dot),
   snd occluded).

Definition lit (objects : list (Object.t D)) (lights : list (Light.t D))
    (scolor : Color.t D) (pintersect n : Vec3d.t D) (tmpdist : D)
    : Color.t D :=
  fst (fold_left (lit_step objects scolor pintersect n) lights
         (Color.mk dzero dzero dzero, tmpdist)).

(** The call of [intersect] on this sphere and ray answers without reading
    the caller's distance: the discriminant is below zero, or one of the two
    branches assigns a root. *)
Definition decides (s : Sphere.t D) (ray : Ray.t D) : bool :=
  (Sphere.val3 s ray < dzero)
  || match Sphere.assigned (Sphere.dist1 s ray) (Sphere.dist2 s ray) with
     | Some _ => true
     | None => false
     end.
End Notions.

(** The point [P] is on the sphere: its squared distance to the centre is
    the squared radius. *)
Definition on_sphere (s : Sphere.t R) (P : Vec3d.t R) : Prop :=
  Vec3d.dotProduct (Vec3d.sub P (Sphere.center s))
                   (Vec3d.sub P (Sphere.center s))
  = (Sphere.radius s * Sphere.radius s)%R.

(** A double that is a zero of either sign or a NaN, and one that is an
    infinity of either sign or a NaN. *)
Definition zero_or_nan (x : float) : Prop :=
  (x = 0 \/ x = -0 \/ x = nan)%float.

Definition inf_or_nan (x : float) : Prop :=
  (x = nan \/ x = infinity \/ x = neg_infinity)%float.

(** A double in its specification that is a NaN, or a zero, a finite number
    or an infinity with the plus sign. *)
Definition plus_signed (f : spec_float) : Prop :=
  match f with
  | S754_nan => True
  | S754_zero s | S754_infinity s | S754_finite s _ _ => s = false
  end.

(** ** Rays, spheres and lights to evaluate the program on *)

Section DoubleInputs.
Local Open Scope float_scope.

(* The unit sphere around the origin, and a ray leaving its centre. *)
Definition unit_sphere : Sphere.t float :=
  Sphere.mk (Vec3d.mk 0 0 0) 1.

Definition ray_from_origin : Ray.t float :=
  Ray.mk (Vec3d.mk 0 0 0) (Vec3d.mk 0 0 (-1)).

(* A sphere behind the camera: the roots are -4 and -6. *)
Definition sphere_behind : Sphere.t float :=
  Sphere.mk (Vec3d.mk 0 0 5) 1.

(* A sphere that the origin lies on, its centre ahead: the roots are 2 and 0. *)
Definition sphere_touching : Sphere.t float :=
  Sphere.mk (Vec3d.mk 0 0 (-1)) 1.

(* The first sphere and the light of [main].  The ray down the z axis meets
   that sphere at (0,0,-15): [back_light] lies behind the surface there,
   [light_above] 25 above it, and [sphere_beyond] on the same line, 44 away. *)
Definition first_sphere : Object.t float :=
  Object.of_Sphere (Sphere.mk (Vec3d.mk 0 0 (-20)) 5).

Definition sphere_beyond : Object.t float :=
  Object.of_Sphere (Sphere.mk (Vec3d.mk 0 0 30) 1).

Definition front_light : Light.t float :=
  Light.mk (Vec3d.mk 30 30 (-2)) Color.white.

Definition back_light : Light.t float :=
  Light.mk (Vec3d.mk 0 0 (-40)) Color.white.

Definition light_above : Light.t float :=
  Light.mk (Vec3d.mk 0 0 10) Color.white.

(* The spheres of [main], before they are seen as objects. *)
Definition main_spheres : list (Sphere.t float) :=
  [ Sphere.mk (Vec3d.mk 0 0 (-20)) 5;
    Sphere.mk (Vec3d.mk 2 1 (-15)) 1;
    Sphere.mk (Vec3d.mk 4 4 (-22)) 2.5;
    Sphere.mk (Vec3d.mk 80 (-6) (-150)) 5;
    Sphere.mk (Vec3d.mk (-4) 4 (-5)) 2.5 ].

(* A light almost level with the surface at (0,0,-15), just below the
   tangent plane. *)
Definition grazing_light : Light.t float :=
  Light.mk (Vec3d.mk 0x1p40 0 (-0x1.e00002p+3)) Color.white.

(* The fifth sphere of [main], the one that the pixel of column 20 of the
   first row sees, and the distance and the point at which it sees it. *)
Definition fifth_sphere : Object.t float :=
  Object.of_Sphere (Sphere.mk (Vec3d.mk (-4) 4 (-5)) 2.5).

Definition ray_20_0 : Ray.t float :=
  primary_ray M_PI_double tan_half_fov 800 500 100 20 0.

Definition dist_20_0 : float := 0x1.bd7c3644d07cap+2.

(* A sphere around the camera whose squared radius overflows. *)
Definition huge_sphere : Object.t float :=
  Object.of_Sphere (Sphere.mk (Vec3d.mk 0 0 (-20)) 0x1p600).

(* A sphere and a ray for which the products of [intersect] overflow. *)
Definition overflow_sphere : Sphere.t float :=
  Sphere.mk (Vec3d.mk 0 0 (-0x1p500)) 1.

Definition overflow_ray : Ray.t float :=
  Ray.mk (Vec3d.mk 0 0 0) (Vec3d.mk 0 0 (-0x1p600)).

(* A sphere of radius 1 so far out that the doubles around its centre are
   more than 1 apart. *)
Definition far_sphere : Sphere.t float :=
  Sphere.mk (Vec3d.mk 0x1p60 0 0) 1.

(* A sphere that the z axis touches at (0,0,-2), and one that it passes by,
   2^-52 away. *)
Definition tangent_sphere : Sphere.t float :=
  Sphere.mk (Vec3d.mk 1 0 (-2)) 1.

Definition passed_sphere : Sphere.t float :=
  Sphere.mk (Vec3d.mk 0x1.0000000000001p+0 0 (-5)) 1.

(* A large sphere behind the ray down the z axis, the origin outside it. *)
Definition large_sphere_behind : Sphere.t float :=
  Sphere.mk (Vec3d.mk 0x1.2e055f8p+25 0 0.390625) 0x1.2e055f8p+25.

(* A small sphere far along the x axis, and the ray along that axis. *)
Definition small_far_sphere : Sphere.t float :=
  Sphere.mk (Vec3d.mk 10000000 0 0) 0x1.0624dd2f1a9fcp-10.

Definition ray_along_x : Ray.t float :=
  Ray.mk (Vec3d.mk 0 0 0) (Vec3d.mk 1 0 0).

(* A sphere of radius 1 whose centre is 2^-30 off the z axis, 1 away: the
   origin of the ray down the axis is outside it by less than the doubles
   resolve. *)
Definition near_origin_sphere : Object.t float :=
  Object.of_Sphere (Sphere.mk (Vec3d.mk 0 0x1p-30 (-1)) 1).
End DoubleInputs.

Section RealInputs.
Local Open Scope R_scope.

(* The unit sphere around the origin and a ray leaving its centre: the
   roots are 1 and -1. *)
Definition unit_sphere_real : Sphere.t R := Sphere.mk (Vec3d.mk 0 0 0) 1.

Definition ray_from_origin_real : Ray.t R :=
  Ray.mk (Vec3d.mk 0 0 0) (Vec3d.mk 0 0 (-1)).

(* A sphere that the origin lies on, its centre ahead: the roots are 2 and 0. *)
Definition sphere_touching_real : Sphere.t R :=
  Sphere.mk (Vec3d.mk 0 0 (-1)) 1.

(* A sphere behind the origin. *)
Definition sphere_behind_real : Sphere.t R := Sphere.mk (Vec3d.mk 0 0 5) 1.

End RealInputs.

(** ** Tactics *)

(* Reads the operations of [real_arith] as the operations of [R], and
   leaves every other definition folded. *)
Ltac real_ops :=
  (cbn [dzero dunit dtwo dhalf dtenth deps dmax dofnat
        dadd dsub dmul ddiv dneg dsqrt dlt real_arith] in *).

(* Writes the operations on vectors out, component by component. *)
Ltac vec_ops :=
  cbv [Sphere.getNormal Sphere.center Sphere.radius
       Vec3d.div Vec3d.sub Vec3d.add Vec3d.mul Vec3d.normalize
       Vec3d.dotProduct Vec3d.x Vec3d.y Vec3d.z];
  real_ops.

(** * Properties *)

(** ** The constants of [float_arith]

    The literals [0.1] and [0.00001] denote the doubles nearest to 1/10 and
    to 1/100000, which are what the correctly rounded division returns, and
    [numeric_limits<double>::max()] is the last double before infinity. *)

Lemma float_constants :
  (1 / 10 = dtenth /\ 1 / 100000 = deps /\ next_up dmax = infinity)%float.
Proof. repeat split; vm_compute; reflexivity. Qed.

(* Their values, mantissa and exponent: the constants of [real_arith] are
   these. *)
Lemma float_constants_exact :
  Prim2SF dtenth = S754_finite false 7205759403792794 (-56) /\
  Prim2SF deps = S754_finite false 5902958103587057 (-69) /\
  Prim2SF dmax = S754_finite false (2 ^ 53 - 1) 971.
Proof. repeat split; vm_compute; reflexivity. Qed.

(** ** Both instances have the sign laws *)

Lemma SFltb_asym (x y : spec_float) : SFltb x y = true -> SFltb y x = false.
Proof.
  unfold SFltb.
  destruct x as [ [] | [] | | [] mx ex ], y as [ [] | [] | | [] my ey ];
    cbn; try discriminate; try reflexivity;
    pose proof (Pos.compare_cont_antisym mx my Eq) as E; cbn in E;
    rewrite (Z.compare_antisym ex ey), <- E;
    destruct (ex ?= ey)%Z; cbn; try discriminate; try reflexivity;
    destruct (Pos.compare_cont Eq mx my); cbn; try discriminate; reflexivity.
Qed.

Lemma float_neg_lt_pos (x y : float) :
  (x <? 0)%float = true -> (0 <? y)%float = true -> (x <? y)%float = true.
Proof.
  rewrite !ltb_spec.
  change (Prim2SF 0) with (S754_zero false).
  destruct (Prim2SF x) as [ [] | [] | | [] mx ex ];
    destruct (Prim2SF y) as [ [] | [] | | [] my ey ];
    cbn; intros; try discriminate; reflexivity.
Qed.

#[global] Instance float_signs : SignLaws float.
Proof.
  split.
  - reflexivity.
  - intros x y. cbn. rewrite !ltb_spec. apply SFltb_asym.
  - exact float_neg_lt_pos.
Qed.

Lemma Rltb_true (a b : R) : Rltb a b = true <-> (a < b)%R.
Proof. unfold Rltb. destruct (Rlt_dec a b); split; intros; lra || congruence. Qed.

Lemma Rltb_false (a b : R) : Rltb a b = false <-> (b <= a)%R.
Proof. unfold Rltb. destruct (Rlt_dec a b); split; intros; lra || congruence. Qed.

#[global] Instance real_signs : SignLaws R.
Proof.
  split; cbn.
  - apply Rltb_true. lra.
  - intros x y Hx. apply Rltb_true in Hx. apply Rltb_false. lra.
  - intros x y Hx Hy. apply Rltb_true in Hx, Hy. apply Rltb_true. lra.
Qed.

(** ** Both instances have the order laws *)

Lemma SFltb_trans (x y z : spec_float) :
  SFltb x y = true -> SFltb y z = true -> SFltb x z = true.
Proof.
  unfold SFltb.
  destruct x as [ [] | [] | | [] mx ex ], y as [ [] | [] | | [] my ey ],
           z as [ [] | [] | | [] mz ez ];
    cbn; try discriminate; try reflexivity;
    rewrite ?Pos.compare_cont_spec; cbn [Pos.switch_Eq];
    destruct (Z.compare_spec ex ey), (Z.compare_spec ey ez),
             (Z.compare_spec ex ez);
    try discriminate; try reflexivity; try lia;
    destruct (Pos.compare_spec mx my), (Pos.compare_spec my mz),
             (Pos.compare_spec mx mz);
    cbn; try discriminate; try reflexivity; try lia.
Qed.

#[global] Instance float_order : OrderLaws float.
Proof.
  split.
  - intros x y z. cbn. rewrite !ltb_spec. apply SFltb_trans.
  - reflexivity.
Qed.

#[global] Instance real_order : OrderLaws R.
Proof.
  split; cbn.
  - intros x y z Hxy Hyz. apply Rltb_true in Hxy, Hyz. apply Rltb_true. lra.
  - apply Rltb_true. lra.
Qed.

Lemma float_nan_lt (x : float) :
  (nan <? x)%float = false /\ (x <? nan)%float = false.
Proof.
  rewrite !ltb_spec. change (Prim2SF nan) with S754_nan.
  destruct (Prim2SF x) as [ [] | [] | | [] m e ]; split; reflexivity.
Qed.

(** ** Both instances have the laws of the contributions *)

(* What the rounding of a mantissa that is not below zero returns is a zero,
   a finite number or an infinity of the sign it is given, never a NaN. *)
Lemma shr_1_nonneg (mrs : shr_record) :
  (0 <= shr_m mrs)%Z -> (0 <= shr_m (shr_1 mrs))%Z.
Proof.
  destruct mrs as [[| [p | p |] | [p | p |]] r s]; cbn; lia.
Qed.

Lemma iter_shr_1_nonneg (p : positive) :
  forall mrs : shr_record,
    (0 <= shr_m mrs)%Z ->
    (0 <= shr_m (SpecFloat.iter_pos shr_1 p mrs))%Z.
Proof.
  induction p as [p IH | p IH |]; intros mrs H; cbn.
  - apply IH, IH, shr_1_nonneg, H.
  - apply IH, IH, H.
  - apply shr_1_nonneg, H.
Qed.

Lemma shr_fexp_nonneg (prec emax m e : Z) (l : location) :
  (0 <= m)%Z -> (0 <= shr_m (fst (shr_fexp prec emax m e l)))%Z.
Proof.
  intros H. unfold shr_fexp, shr.
  assert (H0 : (0 <= shr_m (shr_record_of_loc m l))%Z)
    by (destruct l as [| []]; exact H).
  destruct (fexp prec emax (Zdigits2 m + e) - e)%Z; cbn [fst]; trivial.
  now apply iter_shr_1_nonneg.
Qed.

Lemma round_nearest_even_nonneg (m : Z) (l : location) :
  (0 <= m)%Z -> (0 <= round_nearest_even m l)%Z.
Proof.
  intros H. destruct l as [| []]; cbn; try lia.
  destruct (Z.even m); lia.
Qed.

Lemma binary_round_aux_sign (prec emax : Z) (s : bool) (m e : Z)
    (l : location) :
  (0 <= m)%Z ->
  let r := binary_round_aux prec emax s m e l in
  r = S754_zero s \/ r = S754_infinity s \/
  exists m' e', r = S754_finite s m' e'.
Proof.
  intros Hm. unfold binary_round_aux.
  pose proof (shr_fexp_nonneg prec emax m e l Hm) as H1.
  destruct (shr_fexp prec emax m e l) as [mrs' e']. cbn [fst] in H1.
  pose proof (shr_fexp_nonneg prec emax
                (round_nearest_even (shr_m mrs') (loc_of_shr_record mrs'))
                e' loc_Exact (round_nearest_even_nonneg _ _ H1)) as H2.
  destruct (shr_fexp prec emax _ e' loc_Exact) as [mrs'' e''].
  cbn [fst] in H2.
  destruct (shr_m mrs'') as [| p | p]; cbn; auto; [| lia].
  destruct (e'' <=? emax - prec)%Z; eauto.
Qed.

Lemma float_pos_mul_neg (x y : float) :
  (0 <? x)%float = true -> (y <? 0)%float = true ->
  (x * y <? 0)%float = true \/ (x * y = -0)%float.
Proof.
  rewrite !ltb_spec.
  change (Prim2SF 0) with (S754_zero false).
  intros Hx Hy.
  assert (H : SFltb (Prim2SF (x * y)) (S754_zero false) = true \/
              Prim2SF (x * y) = S754_zero true).
  { rewrite mul_spec. unfold SF64mul.
    destruct (Prim2SF x) as [ [] | [] | | [] mx ex ];
      destruct (Prim2SF y) as [ [] | [] | | [] my ey ];
      cbn in Hx, Hy |- *; try discriminate; auto.
    destruct (binary_round_aux_sign prec emax true (Z.pos (mx * my))
                (ex + ey) loc_Exact)
      as [-> | [-> | (m' & e' & ->)]]; cbn; auto. lia. }
  destruct H as [H | H]; [now left | right].
  apply Prim2SF_inj. rewrite H. reflexivity.
Qed.

(* What is rounded with the minus sign is not above zero. *)
Lemma round_minus_not_above (m e : Z) (l : location) :
  SFltb (S754_zero false) (binary_round_aux prec emax true m e l) = false.
Proof.
  unfold binary_round_aux.
  destruct (shr_fexp prec emax m e l) as [mrs' e'].
  destruct (shr_fexp prec emax _ e' loc_Exact) as [mrs'' e''].
  destruct (shr_m mrs'') as [| p | p]; cbn; trivial.
  destruct (e'' <=? _)%Z; reflexivity.
Qed.

Lemma float_nonpos_add (a c : float) :
  (0 <? a)%float = false ->
  (c <? 0)%float = true \/ (c = -0)%float ->
  (0 <? a + c)%float = false.
Proof.
  intros Ha Hc.
  assert (HC : match Prim2SF c with
               | S754_zero s | S754_infinity s | S754_finite s _ _ => s = true
               | S754_nan => False
               end).
  { destruct Hc as [Hc | ->]; [| reflexivity].
    rewrite ltb_spec in Hc. change (Prim2SF 0) with (S754_zero false) in Hc.
    destruct (Prim2SF c) as [ [] | [] | | [] mc ec ]; cbn in Hc;
      try discriminate; reflexivity. }
  revert Ha. rewrite !ltb_spec, add_spec. unfold SF64add.
  change (Prim2SF 0) with (S754_zero false).
  destruct (Prim2SF a) as [ [] | [] | | [] ma ea ];
    destruct (Prim2SF c) as [ sc | sc | | sc mc ec ];
    try contradiction; subst; cbn; intros; try discriminate; try reflexivity.
  unfold binary_round. destruct (shl_align _ _ _) as [mz ez].
  apply round_minus_not_above.
Qed.

#[global] Instance float_contributions : ContributionLaws float.
Proof. split; [exact float_pos_mul_neg | exact float_nonpos_add]. Qed.

#[global] Instance real_contributions : ContributionLaws R.
Proof.
  split; cbn.
  - intros x y Hx Hy.
    apply Rltb_true in Hx, Hy. left. apply Rltb_true. nra.
  - intros a c Ha Hc. apply Rltb_false in Ha. apply Rltb_false.
    destruct Hc as [Hc | ->]; [apply Rltb_true in Hc |]; lra.
Qed.

(** ** Signs on doubles

    A square, a sum of values with the plus sign and the square root of
    such a value have the plus sign or are NaNs, whatever the rounding. *)

Lemma round_plus_signed (m e : Z) (l : location) :
  plus_signed (binary_round_aux prec emax false m e l).
Proof.
  unfold binary_round_aux.
  destruct (shr_fexp prec emax m e l) as [mrs' e'].
  destruct (shr_fexp prec emax _ e' loc_Exact) as [mrs'' e''].
  destruct (shr_m mrs'') as [| p | p]; cbn; trivial.
  destruct (e'' <=? _)%Z; reflexivity.
Qed.

Lemma square_plus_signed (x : float) : plus_signed (Prim2SF (x * x)%float).
Proof.
  rewrite mul_spec. unfold SF64mul.
  destruct (Prim2SF x) as [ [] | [] | | [] mx ex ]; cbn; trivial;
    apply round_plus_signed.
Qed.

Lemma add_plus_signed (x y : float) :
  plus_signed (Prim2SF x) -> plus_signed (Prim2SF y) ->
  plus_signed (Prim2SF (x + y)%float).
Proof.
  rewrite add_spec. unfold SF64add.
  destruct (Prim2SF x) as [ sx | sx | | sx mx ex ];
    destruct (Prim2SF y) as [ sy | sy | | sy my ey ];
    cbn; trivial; try (intros -> ->; reflexivity);
    try (intros -> _; reflexivity); try (intros _ ->; reflexivity).
  intros -> ->. cbn. unfold binary_round.
  destruct (shl_align _ _ _) as [mz ez]. apply round_plus_signed.
Qed.

Lemma sqrt_plus_signed (x : float) :
  plus_signed (Prim2SF x) -> plus_signed (Prim2SF (PrimFloat.sqrt x)).
Proof.
  rewrite sqrt_spec. unfold SF64sqrt.
  destruct (Prim2SF x) as [ sx | sx | | sx mx ex ]; cbn; trivial;
    try (intros ->; reflexivity).
  intros ->.
  destruct (SFsqrt_core_binary prec emax (Z.pos mx) ex) as [[mz ez] lz].
  apply round_plus_signed.
Qed.

Lemma plus_signed_not_below (x : float) :
  plus_signed (Prim2SF x) -> (x <? 0)%float = false.
Proof.
  rewrite ltb_spec. change (Prim2SF 0) with (S754_zero false).
  destruct (Prim2SF x) as [ sx | sx | | sx mx ex ]; cbn; trivial;
    intros ->; reflexivity.
Qed.

(* -1 over a value with the plus sign is not above zero. *)
Lemma div_minus_one (len : float) :
  plus_signed (Prim2SF len) -> (0 <? (-1) / len)%float = false.
Proof.
  rewrite ltb_spec, div_spec. unfold SF64div.
  change (Prim2SF 0) with (S754_zero false).
  change (Prim2SF (-1)) with (S754_finite true 4503599627370496 (-52)).
  destruct (Prim2SF len) as [ sx | sx | | sx mx ex ]; cbn; trivial;
    try (intros ->; reflexivity).
  intros ->.
  destruct (SFdiv_core_binary prec emax _ _ _ _) as [[mz ez] lz].
  apply round_minus_not_above.
Qed.

Lemma length_plus_signed (v : Vec3d.t float) :
  plus_signed (Prim2SF (Vec3d.length v)).
Proof.
  unfold Vec3d.length, Vec3d.dotProduct. cbn [dsqrt dadd dmul float_arith].
  apply sqrt_plus_signed.
  repeat apply add_plus_signed; apply square_plus_signed.
Qed.

(** ** Zeros, infinities and NaNs on doubles *)

(* A quotient by a zero is an infinity or a NaN. *)
Lemma float_div_zero (x len : float) :
  (len =? 0)%float = true -> inf_or_nan (x / len)%float.
Proof.
  rewrite FloatAxioms.eqb_spec. change (Prim2SF 0) with (S754_zero false).
  intros Hz.
  assert (Hl : exists s, Prim2SF len = S754_zero s).
  { destruct (Prim2SF len) as [ s | [] | | [] ml el ]; cbn in Hz;
      try discriminate.
    now exists s. }
  destruct Hl as [s Hl].
  assert (Hd : Prim2SF (x / len) = S754_nan \/
               Prim2SF (x / len) = S754_infinity false \/
               Prim2SF (x / len) = S754_infinity true).
  { rewrite div_spec, Hl. unfold SF64div.
    destruct (Prim2SF x) as [ [] | [] | | [] mx ex ], s; cbn; auto. }
  unfold inf_or_nan.
  destruct Hd as [Hd | [Hd | Hd]]; [left | right; left | right; right];
    apply Prim2SF_inj; rewrite Hd; reflexivity.
Qed.

(* A double that is neither below nor above zero is a zero or a NaN. *)
Lemma float_zero_or_nan (x : float) :
  (x <? 0)%float = false -> (0 <? x)%float = false -> zero_or_nan x.
Proof.
  rewrite !ltb_spec. change (Prim2SF 0) with (S754_zero false).
  intros H1 H2.
  assert (Hx : Prim2SF x = S754_zero false \/ Prim2SF x = S754_zero true \/
               Prim2SF x = S754_nan).
  { destruct (Prim2SF x) as [ [] | [] | | [] mx ex ]; cbn in H1, H2;
      try discriminate; auto. }
  unfold zero_or_nan.
  destruct Hx as [Hx | [Hx | Hx]]; [left | right; left | right; right];
    apply Prim2SF_inj; rewrite Hx; reflexivity.
Qed.

(** ** Root selection in [Sphere::intersect], for every arithmetic *)

Section Selection.
Context {D : Type} {arith : Arith D}.

Lemma assigned_first_branch (d1 d2 : D) :
  (d1 < dzero) || (d2 < dzero) = true ->
  Sphere.assigned d1 d2 = Some (std_max d1 d2).
Proof. unfold Sphere.assigned. intros ->. reflexivity. Qed.

Lemma assigned_None (d1 d2 : D) :
  Sphere.assigned d1 d2 = None <->
  (d1 < dzero) = false /\ (d2 < dzero) = false /\
  (d1 > dzero) && (d2 > dzero) = false.
Proof.
  unfold Sphere.assigned.
  destruct (d1 < dzero), (d2 < dzero), (d1 > dzero), (d2 > dzero);
    cbn; intuition congruence.
Qed.

Lemma intersect_assigned (s : Sphere.t D) (ray : Ray.t D) (d stale : D) :
  (Sphere.val3 s ray < dzero) = false ->
  Sphere.assigned (Sphere.dist1 s ray) (Sphere.dist2 s ray) = Some d ->
  Sphere.intersect s ray stale = (d > deps, d).
Proof. unfold Sphere.intersect. intros -> ->. reflexivity. Qed.

Lemma intersect_unassigned (s : Sphere.t D) (ray : Ray.t D) (stale : D) :
  (Sphere.val3 s ray < dzero) = false ->
  Sphere.assigned (Sphere.dist1 s ray) (Sphere.dist2 s ray) = None ->
  Sphere.intersect s ray stale = (stale > deps, stale).
Proof. unfold Sphere.intersect. intros -> ->. reflexivity. Qed.

Lemma intersect_no_root (s : Sphere.t D) (ray : Ray.t D) (stale : D) :
  (Sphere.val3 s ray < dzero) = true ->
  Sphere.intersect s ray stale = (false, stale).
Proof. unfold Sphere.intersect. intros ->. reflexivity. Qed.

Context `{!SignLaws D}.

Lemma lt_irrefl (x : D) : (x < x) = false.
Proof.
  destruct (x < x) eqn:E; trivial.
  pose proof (lt_asym _ _ E). congruence.
Qed.

Lemma neg_not_pos (x : D) : (x < dzero) = true -> (dzero < x) = false.
Proof. apply lt_asym. Qed.

Lemma neg_not_above_eps (x : D) : (x < dzero) = true -> (x > deps) = false.
Proof.
  intros Hx. apply lt_asym, neg_lt_pos; [exact Hx | exact eps_positive].
Qed.

(** [std::max] returns one of its arguments, and neither is above it. *)
Lemma std_max_largest (a b : D) :
  (std_max a b = a \/ std_max a b = b) /\
  (std_max a b < a) = false /\ (std_max a b < b) = false.
Proof.
  unfold std_max. destruct (a < b) eqn:E.
  - auto using lt_asym, lt_irrefl.
  - auto using lt_irrefl.
Qed.

Lemma std_max_straddle (d1 d2 : D) :
  straddle d1 d2 ->
  (dzero < std_max d1 d2) = true /\
  ((d1 < dzero) = true -> std_max d1 d2 = d2) /\
  ((d2 < dzero) = true -> std_max d1 d2 = d1).
Proof.
  unfold std_max.
  intros [[Hn Hp] | [Hn Hp]].
  - rewrite (neg_lt_pos _ _ Hn Hp). repeat split; trivial.
    intros Hn2. pose proof (neg_not_pos _ Hn2). congruence.
  - rewrite (lt_asym _ _ (neg_lt_pos _ _ Hn Hp)). repeat split; trivial.
    intros Hn1. pose proof (neg_not_pos _ Hn1). congruence.
Qed.

(** C1, as the code has it: when the two roots straddle zero, the first
    selection case ([dist1 < 0 || dist2 < 0]) applies; the output distance
    is assigned [max(dist1, dist2)], which is above zero, and neither the
    distance nor the returned hit result depends on the value the caller's
    variable held before the call. *)
Theorem intersect_straddle_assigns (s : Sphere.t D) (ray : Ray.t D) :
  (Sphere.val3 s ray < dzero) = false ->
  straddle (Sphere.dist1 s ray) (Sphere.dist2 s ray) ->
  let d := std_max (Sphere.dist1 s ray) (Sphere.dist2 s ray) in
  Sphere.assigned (Sphere.dist1 s ray) (Sphere.dist2 s ray) = Some d /\
  (dzero < d) = true /\
  forall stale : D, Sphere.intersect s ray stale = (d > deps, d).
Proof.
  intros Hdelta Hmix d.
  assert (Ha : Sphere.assigned (Sphere.dist1 s ray) (Sphere.dist2 s ray)
               = Some d).
  { apply assigned_first_branch.
    destruct Hmix as [[-> _] | [-> _]]; auto using orb_true_r. }
  split; [exact Ha | split].
  - apply std_max_straddle, Hmix.
  - intros stale. now apply intersect_assigned.
Qed.

(** C3: when both roots are below zero, the larger one, [max(dist1, dist2)],
    is assigned to the distance; it does not exceed epsilon, and the function
    returns false, whatever the ray and the sphere. *)
Theorem intersect_both_negative (s : Sphere.t D) (ray : Ray.t D) (stale : D) :
  (Sphere.val3 s ray < dzero) = false ->
  (Sphere.dist1 s ray < dzero) = true ->
  (Sphere.dist2 s ray < dzero) = true ->
  let d := std_max (Sphere.dist1 s ray) (Sphere.dist2 s ray) in
  (d = Sphere.dist1 s ray \/ d = Sphere.dist2 s ray) /\
  (d < Sphere.dist1 s ray) = false /\ (d < Sphere.dist2 s ray) = false /\
  (d > deps) = false /\
  Sphere.intersect s ray stale = (false, d).
Proof.
  intros Hdelta H1 H2 d.
  destruct (std_max_largest (Sphere.dist1 s ray) (Sphere.dist2 s ray))
    as (Hsel & Hge1 & Hge2).
  assert (Heps : (d > deps) = false).
  { destruct Hsel as [E | E]; unfold d; rewrite E;
      now apply neg_not_above_eps. }
  repeat split; trivial.
  rewrite (intersect_assigned s ray d stale Hdelta).
  - now rewrite Heps.
  - apply assigned_first_branch. now rewrite H1.
Qed.
End Selection.

(** ** The pixel loop, for every arithmetic and every kind of object *)

Section PixelLoop.
Context {D : Type} {arith : Arith D}.

Lemma misses_not_blocked (objects : list (Object.t D)) (ray : Ray.t D)
    (tmpdist : D) :
  misses objects ray tmpdist = negb (fst (blocked objects ray tmpdist)).
Proof.
  revert tmpdist. induction objects as [| o rest IH]; intros tmpdist; cbn.
  - reflexivity.
  - destruct (Object.intersect o ray tmpdist) as [[] t]; cbn; auto.
Qed.

Lemma nearest_fold_misses (objects : list (Object.t D)) (ray : Ray.t D) :
  forall (dist tmpdist : D) (curo : option (Object.t D)),
    misses objects ray tmpdist = true ->
    exists tmpdist' : D,
      fold_left (nearest_step ray) objects (dist, tmpdist, curo)
      = (dist, tmpdist', curo).
Proof.
  induction objects as [| o rest IH]; intros dist tmpdist curo Hmiss.
  - now exists tmpdist.
  - cbn in Hmiss; cbn.
    destruct (Object.intersect o ray tmpdist) as [hit t].
    apply andb_true_iff in Hmiss as [Hhit Hrest].
    apply negb_true_iff in Hhit. subst hit. now apply IH.
Qed.

(** Once an object is recorded it stays recorded. *)
Lemma nearest_fold_keeps (objects : list (Object.t D)) (ray : Ray.t D) :
  forall (dist tmpdist : D) (o : Object.t D),
    exists (dist' tmpdist' : D) (o' : Object.t D),
      fold_left (nearest_step ray) objects (dist, tmpdist, Some o)
      = (dist', tmpdist', Some o').
Proof.
  induction objects as [| o1 rest IH]; intros dist tmpdist o.
  - now exists dist, tmpdist, o.
  - cbn. destruct (Object.intersect o1 ray tmpdist) as [[] t].
    + destruct (t < dist); apply IH.
    + apply IH.
Qed.

Lemma light_step_occluded (objects : list (Object.t D)) (scolor : Color.t D)
    (pintersect n : Vec3d.t D) (px : Color.t D) (tmpdist : D)
    (l : Light.t D) :
  fst (blocked objects (shadow_ray pintersect l) tmpdist) = true ->
  fst (light_step objects scolor pintersect n (px, tmpdist) l) = px.
Proof.
  unfold light_step, shadow_ray, light_vector.
  destruct (blocked objects _ tmpdist) as [b t]. cbn. now intros ->.
Qed.

Lemma light_step_unoccluded (objects : list (Object.t D)) (scolor : Color.t D)
    (pintersect n : Vec3d.t D) (px : Color.t D) (tmpdist : D)
    (l : Light.t D) :
  fst (blocked objects (shadow_ray pintersect l) tmpdist) = false ->
  fst (light_step objects scolor pintersect n (px, tmpdist) l)
  = Color.add px
      (Color.scale (Color.mul scolor (Light.color l))
         (Vec3d.dotProduct n (light_vector pintersect l))).
Proof.
  unfold light_step, shadow_ray, light_vector.
  destruct (blocked objects _ tmpdist) as [b t]. cbn. now intros ->.
Qed.

(** When no [intersect] call of the search reports a hit, the colour of the
    pixel is the background colour itself. *)
Lemma pixel_background (objects : list (Object.t D))
    (lights : list (Light.t D)) (background scolor : Color.t D)
    (ray : Ray.t D) (tmpdist : D) :
  misses objects ray tmpdist = true ->
  pixel objects lights background scolor ray tmpdist = background.
Proof.
  intros Hmiss. unfold pixel, nearest.
  destruct (nearest_fold_misses objects ray dmax tmpdist None Hmiss)
    as [t ->].
  reflexivity.
Qed.

(** When the search records an object, the colour of the pixel is made from
    the colour accumulated over the lights by [finish]. *)
Lemma pixel_hit (objects : list (Object.t D))
    (lights : list (Light.t D)) (background scolor : Color.t D)
    (ray : Ray.t D) (tmpdist dist tmpdist' : D) (o : Object.t D) :
  nearest objects ray tmpdist = (dist, tmpdist', Some o) ->
  let pintersect := Ray.getPoint ray dist in
  let acc :=
    accumulated objects lights scolor pintersect
      (Object.getNormal o pintersect) tmpdist' in
  pixel objects lights background scolor ray tmpdist
  = Color.clamp
      (Color.add (Color.clamp acc dzero dunit) (Color.scale scolor dtenth))
      dzero dunit.
Proof.
  intros Hnear pintersect acc. unfold pixel. rewrite Hnear.
  unfold acc, accumulated, pintersect.
  destruct (fold_left _ lights _) as [px t]. reflexivity.
Qed.

(** *** The image *)

Lemma nth_error_rows (A : Type) (f : nat -> nat -> A) (W x : nat) :
  (x < W)%nat ->
  forall H a y : nat,
    (a <= y)%nat -> (y < a + H)%nat ->
    nth_error
      (flat_map (fun y => map (fun x => f x y) (seq 0 W)) (seq a H))
      ((y - a) * W + x)%nat
    = Some (f x y).
Proof.
  intros Hx H. induction H as [| H IH]; intros a y Hay HyH; [lia |].
  cbn [seq flat_map].
  destruct (Nat.eq_dec y a) as [-> | Hne].
  - replace ((a - a) * W + x)%nat with x by lia.
    rewrite nth_error_app1 by (now rewrite length_map, length_seq).
    rewrite nth_error_map, nth_error_seq.
    destruct (Nat.ltb_spec x W); [reflexivity | lia].
  - rewrite nth_error_app2 by (rewrite length_map, length_seq; nia).
    rewrite length_map, length_seq.
    replace ((y - a) * W + x - W)%nat with ((y - S a) * W + x)%nat by nia.
    apply IH; lia.
Qed.

Lemma length_rows (A : Type) (f : nat -> nat -> A) (W H a : nat) :
  length (flat_map (fun y => map (fun x => f x y) (seq 0 W)) (seq a H))
  = (H * W)%nat.
Proof.
  revert a. induction H as [| H IH]; intros a; cbn [seq flat_map].
  - reflexivity.
  - rewrite length_app, length_map, length_seq, IH. lia.
Qed.

Section Frame.
Variable M_PI : D.
Variable tan : D -> D.
Variables W H : nat.
Variable FOV : D.
Variables (objects : list (Object.t D)) (lights : list (Light.t D)).
Variables background scolor : Color.t D.
Variable garbage : nat -> nat -> D.

Abbreviation image :=
  (render M_PI tan W H FOV objects lights background scolor garbage).

Lemma render_length : length image = (H * W)%nat.
Proof.
  unfold render.
  apply (length_rows _
    (fun x y => pixel objects lights background scolor
                  (primary_ray M_PI tan W H FOV x y) (garbage x y))).
Qed.

(** The colour stored for the pixel of column [x] and row [y]. *)
Lemma render_pixel (x y : nat) :
  (x < W)%nat -> (y < H)%nat ->
  nth_error image (y * W + x)%nat
  = Some (pixel objects lights background scolor
            (primary_ray M_PI tan W H FOV x y) (garbage x y)).
Proof.
  intros Hx Hy. unfold render.
  replace (y * W + x)%nat with ((y - 0) * W + x)%nat by lia.
  apply (nth_error_rows _
    (fun x y => pixel objects lights background scolor
                  (primary_ray M_PI tan W H FOV x y) (garbage x y)));
    lia.
Qed.

(** C5: for a pixel whose primary ray gets no hit from any [intersect] call
    of the search for the nearest object, the colour stored in the frame
    buffer is the background colour itself, with no clamping and no ambient
    term. *)
Theorem frame_background (x y : nat) :
  (x < W)%nat -> (y < H)%nat ->
  misses objects (primary_ray M_PI tan W H FOV x y) (garbage x y) = true ->
  nth_error image (y * W + x)%nat = Some background.
Proof.
  intros Hx Hy Hmiss. rewrite render_pixel by assumption.
  now rewrite pixel_background.
Qed.
End Frame.
End PixelLoop.

(** ** The colour of a shaded pixel, for every arithmetic with the laws of
    the order *)

Section FrameShaded.
Context {D : Type} {arith : Arith D} `{!SignLaws D} `{!OrderLaws D}.

(* [clamp] with the bounds 0 and 1 is the clamping by cases. *)
Lemma clamp_saturate (v : D) : clamp dzero dunit v = saturate v.
Proof.
  assert (Hord : (dunit < dzero) = false) by (apply lt_asym, zero_lt_unit).
  unfold clamp, saturate.
  destruct (v < dzero); [now rewrite Hord | reflexivity].
Qed.

Lemma finish_shaded (scolor px : Color.t D) :
  finish scolor px = shaded px scolor.
Proof.
  unfold finish, shaded, shaded_channel, Color.clamp, Color.add, Color.scale.
  cbn [Color.r Color.g Color.b]. now rewrite !clamp_saturate.
Qed.

(* The light loop of the code is the accumulation of the spec. *)
Lemma light_step_lit (objects : list (Object.t D)) (scolor : Color.t D)
    (pintersect n : Vec3d.t D) (st : Color.t D * D) (l : Light.t D) :
  light_step objects scolor pintersect n st l
  = lit_step objects scolor pintersect n st l.
Proof.
  destruct st as [px t]. unfold light_step, lit_step, shadow_ray, light_vector.
  cbn [fst snd].
  destruct (blocked objects _ t) as [[] t']; reflexivity.
Qed.

Lemma accumulated_lit (objects : list (Object.t D))
    (lights : list (Light.t D)) (scolor : Color.t D)
    (pintersect n : Vec3d.t D) (tmpdist : D) :
  accumulated objects lights scolor pintersect n tmpdist
  = lit objects lights scolor pintersect n tmpdist.
Proof.
  unfold accumulated, lit. change Color.default with (Color.mk dzero dzero dzero).
  generalize (Color.mk dzero dzero dzero, tmpdist) as st.
  induction lights as [| l rest IH]; intros st; cbn [fold_left].
  - reflexivity.
  - now rewrite light_step_lit, IH.
Qed.

(* A call that returns true with a distance below the largest double makes
   the search record an object. *)
Lemma nearest_fold_finds (objects : list (Object.t D)) (ray : Ray.t D)
    (o : Object.t D) (d : D) :
  (d < dmax) = true ->
  forall (dist tmpdist : D) (curo : option (Object.t D)),
    (curo = None -> dist = dmax) ->
    In (o, true, d) (reports objects ray tmpdist) ->
    exists (dist' tmpdist' : D) (o' : Object.t D),
      fold_left (nearest_step ray) objects (dist, tmpdist, curo)
      = (dist', tmpdist', Some o').
Proof.
  intros Hlt.
  induction objects as [| o1 rest IH]; intros dist tmpdist curo Hinv Hin;
    [contradiction |].
  cbn in Hin |- *.
  destruct (Object.intersect o1 ray tmpdist) as [hit t].
  destruct Hin as [[= -> -> ->] | Hin].
  - destruct (d < dist) eqn:E; [apply nearest_fold_keeps |].
    destruct curo as [o0 |]; [apply nearest_fold_keeps |].
    rewrite (Hinv eq_refl) in E. congruence.
  - destruct hit; [destruct (t < dist) |].
    + apply nearest_fold_keeps.
    + now apply IH.
    + now apply IH.
Qed.

(** C6, as the code has it: for a pixel whose primary ray gets a hit from
    some [intersect] call of the search at a distance below [DBL_MAX], the
    search records an object, and each channel of the colour stored in the
    frame buffer is the channel accumulated over the lights, from black,
    clamped to [0,1], plus the tint times 0.1, clamped to [0,1] again, in
    that order. *)
Theorem frame_shaded (M_PI : D) (tan : D -> D) (W H : nat) (FOV : D)
    (objects : list (Object.t D)) (lights : list (Light.t D))
    (background scolor : Color.t D) (garbage : nat -> nat -> D)
    (x y : nat) (o : Object.t D) (d : D) :
  (x < W)%nat -> (y < H)%nat ->
  let ray := primary_ray M_PI tan W H FOV x y in
  In (o, true, d) (reports objects ray (garbage x y)) ->
  (d < dmax) = true ->
  exists (dist tmpdist' : D) (o' : Object.t D),
    nearest objects ray (garbage x y) = (dist, tmpdist', Some o') /\
    let pintersect := Ray.getPoint ray dist in
    let acc :=
      lit objects lights scolor pintersect
        (Object.getNormal o' pintersect) tmpdist' in
    nth_error
      (render M_PI tan W H FOV objects lights background scolor garbage)
      (y * W + x)%nat
    = Some (Color.mk
              (saturate (saturate (Color.r acc) + Color.r scolor * dtenth))
              (saturate (saturate (Color.g acc) + Color.g scolor * dtenth))
              (saturate (saturate (Color.b acc) + Color.b scolor * dtenth))).
Proof.
  intros Hx Hy ray Hin Hlt.
  destruct (nearest_fold_finds objects ray o d Hlt dmax (garbage x y) None
              (fun _ => eq_refl) Hin) as (dist & t & o' & Hnear).
  exists dist, t, o'. split; [exact Hnear |].
  intros pintersect acc.
  rewrite render_pixel by assumption. f_equal. fold ray.
  rewrite (pixel_hit objects lights background scolor ray (garbage x y)
             dist t o' Hnear).
  fold pintersect. cbv zeta. rewrite accumulated_lit. fold acc.
  change (finish scolor acc = shaded acc scolor). apply finish_shaded.
Qed.
End FrameShaded.

(** ** The light loop, for every arithmetic *)

Section LightLoop.
Context {D : Type} {arith : Arith D}.

Lemma blocked_by_report (objects : list (Object.t D)) (ray : Ray.t D)
    (o : Object.t D) (d : D) :
  forall tmpdist : D,
    In (o, true, d) (reports objects ray tmpdist) ->
    fst (blocked objects ray tmpdist) = true.
Proof.
  induction objects as [| o1 rest IH]; intros tmpdist Hin; [contradiction |].
  cbn in Hin |- *.
  destruct (Object.intersect o1 ray tmpdist) as [[] t]; [reflexivity |].
  destruct Hin as [[=] | Hin]. now apply IH.
Qed.

Lemma blocked_reported (objects : list (Object.t D)) (ray : Ray.t D) :
  forall tmpdist : D,
    fst (blocked objects ray tmpdist) = true ->
    exists (o : Object.t D) (d : D),
      In (o, true, d) (reports objects ray tmpdist).
Proof.
  induction objects as [| o1 rest IH]; intros tmpdist Hb; [discriminate |].
  cbn in Hb |- *.
  destruct (Object.intersect o1 ray tmpdist) as [[] t].
  - exists o1, t. now left.
  - destruct (IH t Hb) as (o & d & Hin). exists o, d. now right.
Qed.

(** C10: the shadow test looks at no distance.  A light is found occluded
    exactly when some [intersect] call of a pass over the objects along the
    shadow ray returns true; whatever the distance [d] that call reports,
    the running colour of the pixel is then left as it was, and the same
    holds for any light that is seen from the hit point in the same
    direction, nearer or farther. *)
Theorem shadow_test_compares_no_distance (objects : list (Object.t D))
    (scolor : Color.t D) (pintersect n : Vec3d.t D) (px : Color.t D)
    (tmpdist : D) (l : Light.t D) :
  (fst (blocked objects (shadow_ray pintersect l) tmpdist) = true <->
   exists (o : Object.t D) (d : D),
     In (o, true, d) (reports objects (shadow_ray pintersect l) tmpdist)) /\
  forall (o : Object.t D) (d : D),
    In (o, true, d) (reports objects (shadow_ray pintersect l) tmpdist) ->
    fst (light_step objects scolor pintersect n (px, tmpdist) l) = px /\
    forall l' : Light.t D,
      light_vector pintersect l' = light_vector pintersect l ->
      fst (light_step objects scolor pintersect n (px, tmpdist) l') = px.
Proof.
  split.
  - split; [apply blocked_reported |].
    intros (o & d & Hin). now apply (blocked_by_report objects _ o d).
  - intros o d Hin.
    assert (Hb : fst (blocked objects (shadow_ray pintersect l) tmpdist)
                 = true)
      by (now apply (blocked_by_report objects _ o d)).
    split; [now apply light_step_occluded |].
    intros l' Hlv. apply light_step_occluded.
    unfold shadow_ray in *. now rewrite Hlv.
Qed.

Context `{!ContributionLaws D}.

(** C4, as the code has it: for a light that the shadow test leaves
    unoccluded, each channel of the running colour becomes the channel plus
    [scolor * light.color * dot(n, lv)], with the dot product used as it is;
    when the dot product is below zero, the contribution of a channel whose
    tint times light colour is above zero is below zero, or it is the zero
    with the minus sign, and a channel that was not above zero is not above
    zero afterwards. *)
Theorem unoccluded_light_adds_unclamped (objects : list (Object.t D))
    (scolor : Color.t D) (pintersect n : Vec3d.t D) (px : Color.t D)
    (tmpdist : D) (l : Light.t D) :
  fst (blocked objects (shadow_ray pintersect l) tmpdist) = false ->
  let lv := light_vector pintersect l in
  let dot :=
    Vec3d.x n * Vec3d.x lv + Vec3d.y n * Vec3d.y lv + Vec3d.z n * Vec3d.z lv in
  let px' := fst (light_step objects scolor pintersect n (px, tmpdist) l) in
  let negative (c : D) := (c < dzero) = true \/ c = - dzero in
  let tr := Color.r scolor * Color.r (Light.color l) in
  let tg := Color.g scolor * Color.g (Light.color l) in
  let tb := Color.b scolor * Color.b (Light.color l) in
  Color.r px' = Color.r px + tr * dot /\
  Color.g px' = Color.g px + tg * dot /\
  Color.b px' = Color.b px + tb * dot /\
  ((dot < dzero) = true ->
   ((dzero < tr) = true ->
    negative (tr * dot) /\
    ((dzero < Color.r px) = false -> (dzero < Color.r px') = false)) /\
   ((dzero < tg) = true ->
    negative (tg * dot) /\
    ((dzero < Color.g px) = false -> (dzero < Color.g px') = false)) /\
   ((dzero < tb) = true ->
    negative (tb * dot) /\
    ((dzero < Color.b px) = false -> (dzero < Color.b px') = false))).
Proof.
  intros Hfree lv dot px' negative tr tg tb.
  assert (Hpx : px' = Color.add px
                  (Color.scale (Color.mul scolor (Light.color l)) dot))
    by (now apply light_step_unoccluded).
  rewrite Hpx.
  split; [reflexivity | split; [reflexivity | split; [reflexivity |]]].
  intros Hdot.
  repeat split; intros;
    try (now apply pos_mul_neg);
    (apply nonpos_add; [assumption | now apply pos_mul_neg]).
Qed.
End LightLoop.

(** ** Root selection in [Sphere::intersect], on doubles *)

(** C9, as the code has it on doubles.  With a discriminant that is not
    below zero: when a root is below zero, so in particular when exactly one
    is, the condition [dist1 < 0 || dist2 < 0] holds, the distance is
    assigned [max(dist1, dist2)], and the function returns whether that
    value exceeds epsilon; when the other root is above zero, that value is
    the root above zero.  The distance is left unassigned exactly when
    neither root is below zero and not both are above zero, and then a root
    is a zero or a NaN, and the result is the test of the value the caller's
    variable held. *)
Theorem intersect_one_negative (s : Sphere.t float) (ray : Ray.t float) :
  (Sphere.val3 s ray < dzero) = false ->
  let d1 := Sphere.dist1 s ray in
  let d2 := Sphere.dist2 s ray in
  ((d1 < dzero) = true \/ (d2 < dzero) = true ->
   (d1 < dzero) || (d2 < dzero) = true /\
   Sphere.assigned d1 d2 = Some (std_max d1 d2) /\
   forall stale : float,
     Sphere.intersect s ray stale = (deps < std_max d1 d2, std_max d1 d2)) /\
  (straddle d1 d2 ->
   (dzero < std_max d1 d2) = true /\
   ((d1 < dzero) = true -> std_max d1 d2 = d2) /\
   ((d2 < dzero) = true -> std_max d1 d2 = d1)) /\
  (Sphere.assigned d1 d2 = None <->
   (d1 < dzero) = false /\ (d2 < dzero) = false /\
   (dzero < d1) && (dzero < d2) = false) /\
  (Sphere.assigned d1 d2 = None -> zero_or_nan d1 \/ zero_or_nan d2) /\
  (Sphere.assigned d1 d2 = None ->
   forall stale : float, Sphere.intersect s ray stale = (deps < stale, stale)).
Proof.
  intros Hdelta d1 d2.
  split; [| split; [| split; [| split]]].
  - intros Hneg.
    assert (Hor : (d1 < dzero) || (d2 < dzero) = true).
    { destruct Hneg as [-> | ->]; auto using orb_true_r. }
    split; [exact Hor |].
    assert (Ha : Sphere.assigned d1 d2 = Some (std_max d1 d2))
      by (now apply assigned_first_branch).
    split; [exact Ha |].
    intros stale. now apply (intersect_assigned s ray _ stale Hdelta).
  - apply std_max_straddle.
  - apply (assigned_None d1 d2).
  - intros Hn. apply (assigned_None d1 d2) in Hn.
    destruct Hn as (H1 & H2 & H3).
    apply andb_false_iff in H3.
    destruct H3 as [H3 | H3]; [left | right]; now apply float_zero_or_nan.
  - intros Hn stale. now apply (intersect_unassigned s ray stale Hdelta).
Qed.

(** ** [Sphere::intersect] over the reals *)

Section SphereReal.
Local Open Scope R_scope.

Lemma dotProduct_self_nonneg (v : Vec3d.t R) : 0 <= Vec3d.dotProduct v v.
Proof. destruct v as [a b c]. cbn. nra. Qed.

Lemma length_sqr (v : Vec3d.t R) :
  Vec3d.length v * Vec3d.length v = Vec3d.dotProduct v v.
Proof. apply sqrt_sqrt, dotProduct_self_nonneg. Qed.

(* The discriminant, with the square of the length written out. *)
Lemma val3_real (s : Sphere.t R) (ray : Ray.t R) :
  Sphere.val3 s ray =
  Sphere.val1 s ray * Sphere.val1 s ray
  - Vec3d.dotProduct (Vec3d.sub (Ray.origin ray) (Sphere.center s))
                     (Vec3d.sub (Ray.origin ray) (Sphere.center s))
  + Sphere.radius s * Sphere.radius s.
Proof.
  unfold Sphere.val3, Sphere.val2. cbn [dmul dsub dadd real_arith].
  now rewrite length_sqr.
Qed.

Lemma roots_ordered (s : Sphere.t R) (ray : Ray.t R) :
  Sphere.dist2 s ray <= Sphere.dist1 s ray.
Proof.
  unfold Sphere.dist1, Sphere.dist2. cbn [dadd dsub dneg dsqrt real_arith].
  pose proof (sqrt_pos (Sphere.val3 s ray)). lra.
Qed.

Lemma std_max_real (a b : R) : std_max a b = Rmax a b.
Proof.
  unfold std_max, Rmax. cbn. unfold Rltb.
  destruct (Rlt_dec a b), (Rle_dec a b); trivial; lra.
Qed.

Lemma std_min_real (a b : R) : std_min a b = Rmin a b.
Proof.
  unfold std_min, Rmin. cbn. unfold Rltb.
  destruct (Rlt_dec b a), (Rle_dec a b); trivial; lra.
Qed.

Lemma assigned_None_real (d1 d2 : R) :
  Sphere.assigned d1 d2 = None <->
  ~ d1 < 0 /\ ~ d2 < 0 /\ ~ (0 < d1 /\ 0 < d2).
Proof.
  rewrite assigned_None. cbn. rewrite andb_false_iff, !Rltb_false.
  split.
  - intros (H1 & H2 & H3). lra.
  - intros (H1 & H2 & H3). repeat split; lra.
Qed.

Lemma assigned_None_dist2 (s : Sphere.t R) (ray : Ray.t R) :
  Sphere.assigned (Sphere.dist1 s ray) (Sphere.dist2 s ray) = None <->
  Sphere.dist2 s ray = 0.
Proof.
  pose proof (roots_ordered s ray). rewrite assigned_None_real. lra.
Qed.

Lemma unit_sphere_real_roots :
  Sphere.val3 unit_sphere_real ray_from_origin_real = 1 /\
  Sphere.dist1 unit_sphere_real ray_from_origin_real = 1 /\
  Sphere.dist2 unit_sphere_real ray_from_origin_real = -1.
Proof.
  assert (H3 : Sphere.val3 unit_sphere_real ray_from_origin_real = 1).
  { rewrite val3_real. cbn. lra. }
  unfold Sphere.dist1, Sphere.dist2. rewrite H3. cbn. rewrite sqrt_1.
  repeat split; lra.
Defined.

(** Away from the unassigned case, the result is a function of the
    discriminant and of the selected root. *)
Lemma intersect_iff_selected_real (s : Sphere.t R) (ray : Ray.t R) (stale : R) :
  Sphere.dist2 s ray <> 0 ->
  fst (Sphere.intersect s ray stale) = true <->
  0 <= Sphere.val3 s ray /\
  exists d : R,
    Sphere.assigned (Sphere.dist1 s ray) (Sphere.dist2 s ray) = Some d /\
    deps < d.
Proof.
  intros Hnz.
  destruct (Rlt_dec (Sphere.val3 s ray) 0) as [Hlt | Hge].
  - rewrite intersect_no_root by (now apply Rltb_true).
    cbn [fst]. split; [discriminate | intros [H0 _]; lra].
  - assert (Hdelta : 0 <= Sphere.val3 s ray) by lra.
    pose proof (assigned_None_dist2 s ray) as HNone.
    destruct (Sphere.assigned (Sphere.dist1 s ray) (Sphere.dist2 s ray))
      as [d |] eqn:Ha.
    + rewrite (intersect_assigned s ray d stale) by (trivial; now apply Rltb_false).
      cbn [fst dlt deps real_arith]. rewrite Rltb_true. split.
      * intros Hd. split; [exact Hdelta | now exists d].
      * intros (_ & d' & [= <-] & Hd). exact Hd.
    + exfalso. apply Hnz. now apply HNone.
Qed.

(** A tangent ray (discriminant 0) towards a sphere ahead is a hit at the
    single root, when that root exceeds epsilon. *)
Lemma intersect_tangent_real (s : Sphere.t R) (ray : Ray.t R) (stale : R) :
  Sphere.val3 s ray = 0 ->
  Sphere.val1 s ray < 0 ->
  Sphere.intersect s ray stale
  = ((- Sphere.val1 s ray)%R > deps, - Sphere.val1 s ray)%dbl.
Proof.
  intros H0 Hfront.
  assert (H1 : Sphere.dist1 s ray = - Sphere.val1 s ray).
  { unfold Sphere.dist1. rewrite H0. real_ops. rewrite sqrt_0. lra. }
  assert (H2 : Sphere.dist2 s ray = - Sphere.val1 s ray).
  { unfold Sphere.dist2. rewrite H0. real_ops. rewrite sqrt_0. lra. }
  apply intersect_assigned.
  - apply Rltb_false. real_ops. lra.
  - rewrite H1, H2. unfold Sphere.assigned. real_ops.
    assert (E1 : Rltb (- Sphere.val1 s ray) 0 = false)
      by (apply Rltb_false; lra).
    assert (E2 : Rltb 0 (- Sphere.val1 s ray) = true)
      by (apply Rltb_true; lra).
    rewrite E1, E2. cbn [orb andb]. unfold std_min. real_ops.
    assert (E3 : Rltb (- Sphere.val1 s ray) (- Sphere.val1 s ray) = false)
      by (apply Rltb_false; lra).
    now rewrite E3.
Qed.

(** The origin on the sphere, over the reals as on doubles: no root is
    selected and the result is the test of the caller's value. *)
Lemma intersect_touching_real (stale : R) :
  Sphere.val3 sphere_touching_real ray_from_origin_real = 1 /\
  Sphere.dist1 sphere_touching_real ray_from_origin_real = 2 /\
  Sphere.dist2 sphere_touching_real ray_from_origin_real = 0 /\
  Sphere.intersect sphere_touching_real ray_from_origin_real stale
  = (Rltb deps stale, stale).
Proof.
  assert (H3 : Sphere.val3 sphere_touching_real ray_from_origin_real = 1).
  { rewrite val3_real. cbn. lra. }
  assert (H2 : Sphere.dist2 sphere_touching_real ray_from_origin_real = 0).
  { unfold Sphere.dist2. rewrite H3. cbn. rewrite sqrt_1. lra. }
  repeat split; trivial.
  - unfold Sphere.dist1. rewrite H3. cbn. rewrite sqrt_1. lra.
  - rewrite (intersect_unassigned _ _ stale); [reflexivity | |].
    + apply Rltb_false. rewrite H3. real_ops. lra.
    + now apply assigned_None_dist2.
Qed.
End SphereReal.

(** ** Vectors over the reals *)

Section VectorReal.
Local Open Scope R_scope.

Lemma length_unit_dot (u : Vec3d.t R) :
  Vec3d.length u = 1 -> Vec3d.dotProduct u u = 1.
Proof. intros Hl. rewrite <- length_sqr, Hl. lra. Qed.

(* Scaling a unit vector by a non-negative factor gives that length. *)
Lemma length_mul_unit (u : Vec3d.t R) (k : R) :
  Vec3d.dotProduct u u = 1 -> 0 <= k -> Vec3d.length (Vec3d.mul u k) = k.
Proof.
  intros Hu Hk. unfold Vec3d.length.
  replace (Vec3d.dotProduct (Vec3d.mul u k) (Vec3d.mul u k)) with (k * k).
  - now apply sqrt_square.
  - destruct u as [a b c]. cbn in Hu |- *; nra.
Qed.

Lemma normalize_unit (v : Vec3d.t R) :
  Vec3d.length v <> 0 ->
  Vec3d.dotProduct (Vec3d.normalize v) (Vec3d.normalize v) = 1 /\
  Vec3d.length (Vec3d.normalize v) = 1.
Proof.
  intros Hl.
  assert (Hdot : Vec3d.dotProduct (Vec3d.normalize v) (Vec3d.normalize v) = 1).
  { pose proof (length_sqr v) as Hsq. revert Hl Hsq.
    unfold Vec3d.normalize. generalize (Vec3d.length v) as l.
    intros l Hl Hsq. destruct v as [a b c]. cbn in Hsq; cbn.
    replace (a / l * (a / l) + b / l * (b / l) + c / l * (c / l))
      with ((a * a + b * b + c * c) / (l * l)) by (now field).
    rewrite <- Hsq. now field. }
  split; [exact Hdot |].
  unfold Vec3d.length. rewrite Hdot. apply sqrt_1.
Qed.

(* In exact arithmetic the normal at [c + u*r] is [u]. *)
Lemma getNormal_exact (c u : Vec3d.t R) (r : R) :
  0 < r ->
  Vec3d.length u = 1 ->
  let P := Vec3d.add c (Vec3d.mul u r) in
  Sphere.getNormal (Sphere.mk c r) P = u /\
  Vec3d.normalize (Vec3d.sub P c) = u.
Proof.
  intros Hr Hu P.
  assert (Hn : Sphere.getNormal (Sphere.mk c r) P = u).
  { subst P. destruct c as [cx cy cz], u as [ux uy uz]. vec_ops.
    f_equal; field; lra. }
  assert (Hsub : Vec3d.sub P c = Vec3d.mul u r).
  { subst P. destruct c as [cx cy cz], u as [ux uy uz]. vec_ops.
    f_equal; ring. }
  assert (Hlen : Vec3d.length (Vec3d.sub P c) = r).
  { rewrite Hsub. apply length_mul_unit; [now apply length_unit_dot | lra]. }
  split; [exact Hn |].
  unfold Vec3d.normalize. rewrite Hlen. exact Hn.
Qed.
End VectorReal.

(** C7, as the code has it: [getNormal] is [(point - center) / radius],
    component by component, in every arithmetic.  In exact arithmetic, for
    a radius above zero and a unit vector [u], at the point [c + u*r] that
    is [u], and it is [normalize (point - center)].  On doubles it is [u] at
    the point (0,0,-15) of the first sphere of [main], but not for every
    sphere: where the doubles around the centre are farther apart than the
    radius, [c + u*r] is [c] again and the normal comes out as the zero
    vector. *)
Theorem getNormal_on_sphere :
  (forall (D : Type) (A : Arith D) (s : Sphere.t D) (P : Vec3d.t D),
     Sphere.getNormal s P
     = Vec3d.mk ((Vec3d.x P - Vec3d.x (Sphere.center s)) / Sphere.radius s)
                ((Vec3d.y P - Vec3d.y (Sphere.center s)) / Sphere.radius s)
                ((Vec3d.z P - Vec3d.z (Sphere.center s)) / Sphere.radius s)) /\
  (forall (c u : Vec3d.t R) (r : R),
     (0 < r)%R -> Vec3d.length u = 1%R ->
     let P := Vec3d.add c (Vec3d.mul u r) in
     Sphere.getNormal (Sphere.mk c r) P = u /\
     Vec3d.normalize (Vec3d.sub P c) = u) /\
  (Sphere.getNormal (Sphere.mk (Vec3d.mk 0 0 (-20)) 5)
     (Vec3d.add (Vec3d.mk 0 0 (-20)) (Vec3d.mul (Vec3d.mk 0 0 1) 5))
   = Vec3d.mk 0 0 1)%float /\
  (Sphere.getNormal far_sphere
     (Vec3d.add (Sphere.center far_sphere)
        (Vec3d.mul (Vec3d.mk 1 0 0) (Sphere.radius far_sphere)))
   = Vec3d.mk 0 0 0)%float.
Proof.
  split; [reflexivity | split; [| split; vm_compute; reflexivity]].
  intros c u r Hr Hu. now apply getNormal_exact.
Qed.

(** C8, as the code has it: [normalize] divides each component by the
    length, the square root of the sum of the squares, in every arithmetic.
    On doubles, when the length is a zero the call returns and each
    component of the result is an infinity or a NaN; the zero vector gives
    three NaNs.  In exact arithmetic, when the length is not zero the result
    is the vector scaled by [1/length], and its length is 1.  On doubles
    that fails when the squares overflow: the length of (2^600,0,0) is
    infinite and the result is the zero vector. *)
Theorem normalize_divides_by_length :
  (forall (D : Type) (A : Arith D) (v : Vec3d.t D),
     let l :=
       dsqrt (Vec3d.x v * Vec3d.x v + Vec3d.y v * Vec3d.y v
              + Vec3d.z v * Vec3d.z v) in
     Vec3d.normalize v
     = Vec3d.mk (Vec3d.x v / l) (Vec3d.y v / l) (Vec3d.z v / l)) /\
  (forall v : Vec3d.t float,
     (Vec3d.length v =? 0)%float = true ->
     inf_or_nan (Vec3d.x (Vec3d.normalize v)) /\
     inf_or_nan (Vec3d.y (Vec3d.normalize v)) /\
     inf_or_nan (Vec3d.z (Vec3d.normalize v))) /\
  (Vec3d.normalize (Vec3d.mk 0 0 0) = Vec3d.mk nan nan nan)%float /\
  (forall v : Vec3d.t R,
     Vec3d.length v <> 0%R ->
     Vec3d.normalize v = Vec3d.mul v (1 / Vec3d.length v)%R /\
     Vec3d.length (Vec3d.normalize v) = 1%R) /\
  ((Vec3d.length (Vec3d.mk 0x1p600 0 0) =? 0) = false /\
   Vec3d.normalize (Vec3d.mk 0x1p600 0 0) = Vec3d.mk 0 0 0)%float.
Proof.
  split; [reflexivity | split; [| split; [| split]]].
  - intros v Hz. unfold Vec3d.normalize, Vec3d.div.
    cbn [Vec3d.x Vec3d.y Vec3d.z ddiv float_arith].
    auto using float_div_zero.
  - vm_compute. reflexivity.
  - intros v Hl. split; [| now apply normalize_unit].
    unfold Vec3d.normalize. destruct v as [a b c].
    generalize dependent (Vec3d.length (Vec3d.mk a b c)).
    intros l Hl. vec_ops. f_equal; field; exact Hl.
  - split; vm_compute; reflexivity.
Qed.

(** ** The program evaluated on doubles *)

Section FloatExamples.
Local Open Scope float_scope.

Example unit_sphere_roots :
  Sphere.val3 unit_sphere ray_from_origin = 1 /\
  Sphere.dist1 unit_sphere ray_from_origin = 1 /\
  Sphere.dist2 unit_sphere ray_from_origin = (-1).
Proof. repeat split; vm_compute; reflexivity. Qed.

Example sphere_behind_roots :
  Sphere.val3 sphere_behind ray_from_origin = 1 /\
  Sphere.dist1 sphere_behind ray_from_origin = (-4) /\
  Sphere.dist2 sphere_behind ray_from_origin = (-6).
Proof. repeat split; vm_compute; reflexivity. Qed.

Example sphere_touching_roots :
  Sphere.val3 sphere_touching ray_from_origin = 1 /\
  Sphere.dist1 sphere_touching ray_from_origin = 2 /\
  Sphere.dist2 sphere_touching ray_from_origin = 0.
Proof. repeat split; vm_compute; reflexivity. Qed.

(** C1 as stated fails: at the centre of the unit sphere the roots are 1 and
    -1, a value is assigned, and the result is the same for every value the
    caller's variable held. *)
Lemma straddle_is_assigned :
  straddle (Sphere.dist1 unit_sphere ray_from_origin)
           (Sphere.dist2 unit_sphere ray_from_origin) /\
  Sphere.assigned (Sphere.dist1 unit_sphere ray_from_origin)
                  (Sphere.dist2 unit_sphere ray_from_origin) = Some 1 /\
  forall stale : float,
    Sphere.intersect unit_sphere ray_from_origin stale = (true, 1).
Proof.
  split; [right; split; vm_compute; reflexivity | split].
  - vm_compute. reflexivity.
  - intros stale. vm_compute. reflexivity.
Qed.

Lemma intersect_straddle_assigns_witness :
  let d1 := Sphere.dist1 unit_sphere ray_from_origin in
  let d2 := Sphere.dist2 unit_sphere ray_from_origin in
  Sphere.assigned d1 d2 = Some (std_max d1 d2) /\
  (dzero < std_max d1 d2) = true /\
  forall stale : float,
    Sphere.intersect unit_sphere ray_from_origin stale
    = (std_max d1 d2 > deps, std_max d1 d2).
Proof.
  apply (intersect_straddle_assigns unit_sphere ray_from_origin).
  - vm_compute. reflexivity.
  - right. split; vm_compute; reflexivity.
Defined.

(** C2 at an origin that lies on the sphere, the centre ahead of the ray and
    the direction of length 1: the discriminant is 1, the roots are 2 and 0,
    no root is selected, and the result follows the value the caller's
    variable held. *)
Theorem intersect_touching_follows_stale :
  Vec3d.length (Ray.direction ray_from_origin) = 1 /\
  (Sphere.val1 sphere_touching ray_from_origin < dzero) = true /\
  Sphere.val3 sphere_touching ray_from_origin = 1 /\
  Sphere.assigned (Sphere.dist1 sphere_touching ray_from_origin)
                  (Sphere.dist2 sphere_touching ray_from_origin) = None /\
  Sphere.intersect sphere_touching ray_from_origin 0 = (false, 0) /\
  Sphere.intersect sphere_touching ray_from_origin 1 = (true, 1).
Proof. repeat split; vm_compute; reflexivity. Qed.

Lemma intersect_both_negative_witness :
  Sphere.intersect sphere_behind ray_from_origin 100
  = (false, (-4)).
Proof.
  refine (eq_trans
    (proj2 (proj2 (proj2 (proj2
      (intersect_both_negative sphere_behind ray_from_origin 100
         _ _ _))))) _);
    vm_compute; reflexivity.
Defined.

(** C7 as stated fails on doubles: the radius 1 is above zero and (1,0,0)
    has length 1, but at the centre (2^60,0,0) the point [c + u*r] is [c]
    itself and [getNormal] returns the zero vector, not [u]. *)
Lemma getNormal_far_sphere :
  let u := Vec3d.mk 1 0 0 in
  let P :=
    Vec3d.add (Sphere.center far_sphere)
      (Vec3d.mul u (Sphere.radius far_sphere)) in
  (dzero < Sphere.radius far_sphere) = true /\
  Vec3d.length u = 1 /\
  Sphere.getNormal far_sphere P = Vec3d.mk 0 0 0 /\
  Sphere.getNormal far_sphere P <> u.
Proof.
  repeat split; try (vm_compute; reflexivity).
  intros E. apply (f_equal (fun v => Vec3d.x v =? 1)) in E.
  vm_compute in E. discriminate.
Qed.

Lemma getNormal_on_sphere_witness :
  (Sphere.getNormal (Sphere.mk (Vec3d.mk 1 2 3) 2)
     (Vec3d.add (Vec3d.mk 1 2 3) (Vec3d.mul (Vec3d.mk 0 0 1) 2))
   = Vec3d.mk 0 0 1)%R.
Proof.
  refine (proj1 (proj1 (proj2 getNormal_on_sphere)
                   (Vec3d.mk 1 2 3) (Vec3d.mk 0 0 1) 2 _ _))%R.
  - lra.
  - unfold Vec3d.length. cbn.
    replace (0 * 0 + 0 * 0 + 1 * 1)%R with 1%R by lra. apply sqrt_1.
Defined.

(** C8 as stated fails on doubles: the length of (2^600,0,0) is not zero,
    it is infinite, and [normalize] returns the zero vector, of length 0. *)
Lemma normalize_overflow :
  let v := Vec3d.mk 0x1p600 0 0 in
  (Vec3d.length v =? 0) = false /\
  Vec3d.length v = infinity /\
  Vec3d.normalize v = Vec3d.mk 0 0 0 /\
  Vec3d.length (Vec3d.normalize v) = 0 /\
  (Vec3d.length (Vec3d.normalize v) =? 1) = false.
Proof. repeat split; vm_compute; reflexivity. Qed.

(* A vector whose squares underflow has length zero. *)
Lemma normalize_divides_by_length_witness :
  inf_or_nan (Vec3d.x (Vec3d.normalize (Vec3d.mk 0x1p-600 0 0))).
Proof.
  refine (proj1 (proj1 (proj2 normalize_divides_by_length)
                   (Vec3d.mk 0x1p-600 0 0) _)).
  vm_compute. reflexivity.
Defined.

(** C9 as stated fails on doubles: here the discriminant is infinite, so
    not below zero, the roots are an infinity and a NaN, the distance is
    left unassigned, and no root is zero. *)
Lemma unassigned_without_zero_root :
  (0 <=? Sphere.val3 overflow_sphere overflow_ray) = true /\
  Sphere.dist1 overflow_sphere overflow_ray = infinity /\
  Sphere.dist2 overflow_sphere overflow_ray = nan /\
  Sphere.assigned (Sphere.dist1 overflow_sphere overflow_ray)
                  (Sphere.dist2 overflow_sphere overflow_ray) = None /\
  (Sphere.dist1 overflow_sphere overflow_ray =? 0) = false /\
  (Sphere.dist2 overflow_sphere overflow_ray =? 0) = false.
Proof. repeat split; vm_compute; reflexivity. Qed.

Lemma intersect_one_negative_witness :
  Sphere.intersect unit_sphere ray_from_origin 7 = (true, 1).
Proof.
  refine (eq_trans
    (proj2 (proj2 (proj1
      (intersect_one_negative unit_sphere ray_from_origin _) _)) 7) _);
    [vm_compute; reflexivity | right; vm_compute; reflexivity
    | vm_compute; reflexivity].
Defined.

(** *** Pixels of the image of [main] *)

(* The pixel of the top left corner sees no sphere. *)
Lemma frame_background_witness :
  nth_error (main_image (fun _ _ => 0)) (0 * 800 + 0) = Some main_background.
Proof.
  apply frame_background; [lia | lia | vm_compute; reflexivity].
Defined.

(* The pixel of column 20 of the first row sees the fifth sphere, at a
   point that the light of [main] reaches from behind the surface: the
   colour accumulated there is below zero, the first clamp takes it to
   zero, and the pixel is stored as the ambient term. *)
Lemma frame_shaded_witness :
  let p := Ray.getPoint ray_20_0 dist_20_0 in
  lit main_objects main_lights main_scolor p
    (Object.getNormal fifth_sphere p) dist_20_0
  = Color.mk (-0x1.09afa187c5aeep-1) 0 0 /\
  nth_error (main_image (fun _ _ => 0)) (0 * 800 + 20)
  = Some (Color.mk 0x1.999999999999ap-4 0 0).
Proof.
  intros p. split; [vm_compute; reflexivity |].
  destruct (frame_shaded M_PI_double tan_half_fov 800 500 100 main_objects
              main_lights main_background main_scolor (fun _ _ => 0) 20 0
              fifth_sphere dist_20_0)
    as (dist & t & o' & Hnear & Hpx).
  - lia.
  - lia.
  - vm_compute. tauto.
  - vm_compute. reflexivity.
  - unfold main_image. rewrite Hpx.
    assert (E : nearest main_objects
                  (primary_ray M_PI_double tan_half_fov 800 500 100 20 0) 0
                = (dist_20_0, dist_20_0, Some fifth_sphere))
      by (vm_compute; reflexivity).
    rewrite E in Hnear. injection Hnear as <- <- <-.
    vm_compute. reflexivity.
Defined.

(** C6 as stated fails: the primary ray of this image of one pixel gets a
    hit from the sphere around the camera, at an infinite distance, which is
    not below [DBL_MAX]; the search records nothing and the pixel is stored
    as the background colour, not as the clamped sum, which for a scene
    without lights is the ambient term. *)
Lemma hit_at_infinity_is_background :
  let ray := primary_ray M_PI_double tan_half_fov 1 1 100 0 0 in
  Object.intersect huge_sphere ray 7 = (true, infinity) /\
  (forall (p n : Vec3d.t float) (t : float),
     lit [huge_sphere] [] main_scolor p n t = Color.default) /\
  shaded Color.default main_scolor = Color.mk 0x1.999999999999ap-4 0 0 /\
  nth_error
    (render M_PI_double tan_half_fov 1 1 100 [huge_sphere] []
       main_background main_scolor (fun _ _ => 7)) 0
  = Some (Color.mk 0 0.5 0.5).
Proof. repeat split; vm_compute; reflexivity. Qed.

(** *** Lights behind the surface *)

(* At that pixel of [main] the light is not found occluded, the dot product
   is below zero, and the red channel goes from 0 to that value. *)
Lemma unoccluded_light_adds_unclamped_witness :
  let p := Ray.getPoint ray_20_0 dist_20_0 in
  let n := Object.getNormal fifth_sphere p in
  nearest main_objects ray_20_0 0 = (dist_20_0, dist_20_0, Some fifth_sphere) /\
  Color.r (fst (light_step main_objects main_scolor p n
                  (Color.default, dist_20_0) front_light))
  = -0x1.09afa187c5aeep-1 /\
  (dzero < Color.r (fst (light_step main_objects main_scolor p n
                           (Color.default, dist_20_0) front_light)))
  = false.
Proof.
  intros p n. split; [vm_compute; reflexivity |].
  destruct (unoccluded_light_adds_unclamped main_objects main_scolor p n
              Color.default dist_20_0 front_light)
    as (Hr & _ & _ & Hneg); [vm_compute; reflexivity |].
  split.
  - rewrite Hr. vm_compute. reflexivity.
  - destruct Hneg as (Hnr & _ & _); [vm_compute; reflexivity |].
    destruct Hnr as [_ Hstay]; [vm_compute; reflexivity |].
    apply Hstay. vm_compute. reflexivity.
Defined.

(** C4 as stated fails on doubles: the ray down the z axis hits the first
    sphere of [main] at (0,0,-15), where the normal is (0,0,1); after the
    light of [main] the red channel is 0.29...; a second light just below
    the tangent plane is not found occluded, the dot product is -2^-60,
    below zero, the tint times the light colour is above zero, and the
    channel is left as it was: the pixel is not darkened. *)
Lemma grazing_light_is_absorbed :
  let p := Vec3d.mk 0 0 (-15) in
  let n := Vec3d.mk 0 0 1 in
  let px := Color.mk 0x1.2bffdb9c0cae3p-2 0 0 in
  nearest [first_sphere] ray_from_origin 0 = (15, 15, Some first_sphere) /\
  Ray.getPoint ray_from_origin 15 = p /\
  Object.getNormal first_sphere p = n /\
  fold_left (light_step [first_sphere] main_scolor p n) [front_light]
    (Color.default, 15) = (px, -0x1p-52) /\
  fst (blocked [first_sphere] (shadow_ray p grazing_light) (-0x1p-52))
  = false /\
  Vec3d.dotProduct n (light_vector p grazing_light) = -0x1p-60 /\
  (dzero < Color.r main_scolor * Color.r (Light.color grazing_light)) = true /\
  fst (light_step [first_sphere] main_scolor p n (px, -0x1p-52) grazing_light)
  = px /\
  pixel [first_sphere] [front_light; grazing_light] main_background
    main_scolor ray_from_origin 0
  = pixel [first_sphere] [front_light] main_background main_scolor
      ray_from_origin 0.
Proof. repeat split; vm_compute; reflexivity. Qed.

(** The same hit point with a second light straight behind the surface:
    it is not found occluded, its contribution is added as it is, and the
    pixel falls back to the ambient term. *)
Example back_light_darkens_pixel :
  nearest [first_sphere] ray_from_origin 0 = (15, 15, Some first_sphere) /\
  pixel [first_sphere] [front_light] main_background main_scolor
    ray_from_origin 0
  = Color.mk 0x1.926642027314ap-2 0 0 /\
  fold_left
    (light_step [first_sphere] main_scolor (Vec3d.mk 0 0 (-15))
       (Vec3d.mk 0 0 1))
    [front_light; back_light] (Color.default, 15)
  = (Color.mk (-0x1.6a001231f9a8ep-1) 0 0, -0x1p-52) /\
  pixel [first_sphere] [front_light; back_light] main_background main_scolor
    ray_from_origin 0
  = Color.mk 0x1.999999999999ap-4 0 0.
Proof. repeat split; vm_compute; reflexivity. Qed.

(** *** A sphere beyond a light *)

(* From the hit point (0,0,-15) the light straight above is 25 away; the
   sphere on the same line reports a hit at 44, beyond the light, and the
   light is skipped. *)
Lemma shadow_test_compares_no_distance_witness :
  let p := Vec3d.mk 0 0 (-15) in
  nearest [first_sphere; sphere_beyond] ray_from_origin 0
  = (15, -29, Some first_sphere) /\
  Vec3d.length (Vec3d.sub (Light.pos light_above) p) = 25 /\
  In (sphere_beyond, true, 44)
     (reports [first_sphere; sphere_beyond] (shadow_ray p light_above) (-29)) /\
  fst (light_step [first_sphere; sphere_beyond] main_scolor p (Vec3d.mk 0 0 1)
         (Color.default, -29) light_above)
  = Color.default.
Proof.
  intros p.
  assert (Hin : In (sphere_beyond, true, 44)
                  (reports [first_sphere; sphere_beyond]
                     (shadow_ray p light_above) (-29)))
    by (vm_compute; tauto).
  split; [vm_compute; reflexivity |].
  split; [vm_compute; reflexivity |].
  split; [exact Hin |].
  exact (proj1
    (proj2
       (shadow_test_compares_no_distance [first_sphere; sphere_beyond]
          main_scolor p (Vec3d.mk 0 0 1) Color.default (-29) light_above)
       sphere_beyond 44 Hin)).
Defined.

(** With that light alone the pixel is lit fully; with the sphere beyond
    the light in the scene it is stored as the ambient term. *)
Example sphere_beyond_light_blocks :
  Vec3d.length (Vec3d.sub (Light.pos light_above) (Vec3d.mk 0 0 (-15))) = 25 /\
  blocked [first_sphere; sphere_beyond]
    (shadow_ray (Vec3d.mk 0 0 (-15)) light_above) 0 = (true, 44) /\
  pixel [first_sphere] [light_above] main_background main_scolor
    ray_from_origin 0
  = Color.mk 1 0 0 /\
  pixel [first_sphere; sphere_beyond] [light_above] main_background
    main_scolor ray_from_origin 0
  = Color.mk 0x1.999999999999ap-4 0 0.
Proof. repeat split; vm_compute; reflexivity. Qed.
End FloatExamples.

(** * Further properties of the code *)

(** ** [clamp] *)

Section Clamp.
Context {D : Type} {arith : Arith D} `{!SignLaws D} `{!OrderLaws D}.

(** X1: what the comment above [clamp] promises, for bounds in order: a
    value of the range is returned as it is, a value below [min] gives
    [min], a value above [max] gives [max]; the result is never below [min]
    nor above [max], and clamping it again changes nothing. *)
Theorem clamp_documented (min max val : D) :
  (max < min) = false ->
  ((val < min) = false -> (max < val) = false -> clamp min max val = val) /\
  ((val < min) = true -> clamp min max val = min) /\
  ((max < val) = true -> clamp min max val = max) /\
  (clamp min max val < min) = false /\
  (max < clamp min max val) = false /\
  clamp min max (clamp min max val) = clamp min max val.
Proof.
  intros Hord.
  assert (Hrange : forall v : D,
    (clamp min max v < min) = false /\ (max < clamp min max v) = false).
  { intros v. unfold clamp.
    destruct (v < min) eqn:E1.
    - rewrite Hord. split; [apply lt_irrefl | exact Hord].
    - destruct (max < v) eqn:E2.
      + split; [exact Hord | apply lt_irrefl].
      + now split. }
  assert (Hin : forall v : D,
    (v < min) = false -> (max < v) = false -> clamp min max v = v).
  { intros v E1 E2. unfold clamp. now rewrite E1, E2. }
  repeat split; try apply Hrange.
  - apply Hin.
  - intros E1. unfold clamp. now rewrite E1, Hord.
  - intros E2. unfold clamp.
    destruct (val < min) eqn:E1; [| now rewrite E2].
    pose proof (lt_trans _ _ _ E2 E1). congruence.
  - apply Hin; apply Hrange.
Qed.

Lemma clamp_in_unit (val : D) : in_unit (clamp dzero dunit val).
Proof.
  assert (Hord : (dunit < dzero) = false) by (apply lt_asym, zero_lt_unit).
  unfold in_unit, clamp.
  destruct (val < dzero) eqn:E1.
  - rewrite Hord. split; [apply lt_irrefl | exact Hord].
  - destruct (dunit < val) eqn:E2.
    + split; [exact Hord | apply lt_irrefl].
    + now split.
Qed.

Lemma finish_in_unit (scolor px : Color.t D) :
  in_unit (Color.r (finish scolor px)) /\
  in_unit (Color.g (finish scolor px)) /\
  in_unit (Color.b (finish scolor px)).
Proof. unfold finish, Color.clamp. cbn. auto using clamp_in_unit. Qed.
End Clamp.

Lemma clamp_documented_witness :
  clamp 0%float 1%float 0.5%float = 0.5%float.
Proof.
  refine (proj1 (clamp_documented 0%float 1%float 0.5%float _) _ _);
    vm_compute; reflexivity.
Defined.

(** ** NaN on doubles *)

Lemma float_add_nan (x : float) : (nan + x)%float = nan.
Proof.
  apply Prim2SF_inj. rewrite add_spec. change (Prim2SF nan) with S754_nan.
  destruct (Prim2SF x) as [ [] | [] | | [] m e ]; reflexivity.
Qed.

(** X2: on doubles [clamp] returns a NaN as it is, whatever the bounds, so
    a NaN channel of the accumulated colour is still NaN after the two
    clamps and the ambient term of lines 405-407. *)
Theorem clamp_keeps_nan (lo hi : float) (scolor px : Color.t float) :
  clamp lo hi nan = nan /\
  (Color.r px = nan -> Color.r (finish scolor px) = nan) /\
  (Color.g px = nan -> Color.g (finish scolor px) = nan) /\
  (Color.b px = nan -> Color.b (finish scolor px) = nan).
Proof.
  assert (Hclamp : forall lo hi : float, clamp lo hi nan = nan).
  { intros l h. unfold clamp. cbn [dlt float_arith].
    destruct (float_nan_lt l) as [-> _].
    destruct (float_nan_lt h) as [_ ->]. reflexivity. }
  split; [apply Hclamp |].
  unfold finish, Color.clamp, Color.add, Color.scale.
  cbn [Color.r Color.g Color.b dadd float_arith].
  repeat split; intros ->; now rewrite Hclamp, float_add_nan, Hclamp.
Qed.

(** ** The search for the nearest object *)

Section NearestSearch.
Context {D : Type} {arith : Arith D}.

(* The search from any state: either it ends in the state it started from,
   or it ends on an object whose [intersect] returned true and left the
   recorded distance. *)
Lemma nearest_fold_records (objects : list (Object.t D)) (ray : Ray.t D) :
  forall (dist0 tmp0 : D) (curo0 : option (Object.t D)),
    let '(dist, _, curo) :=
      fold_left (nearest_step ray) objects (dist0, tmp0, curo0) in
    (dist = dist0 /\ curo = curo0) \/
    (exists o : Object.t D,
       curo = Some o /\ In (o, true, dist) (reports objects ray tmp0)).
Proof.
  induction objects as [| o1 rest IH]; intros dist0 tmp0 curo0; cbn.
  - now left.
  - destruct (Object.intersect o1 ray tmp0) as [hit t1] eqn:E.
    destruct hit; [destruct (t1 < dist0) eqn:Elt |].
    + specialize (IH t1 t1 (Some o1)).
      destruct (fold_left _ rest _) as [[dist t] curo].
      destruct IH as [[-> ->] | (o & -> & Hin)]; right.
      * exists o1. split; [reflexivity | now left].
      * exists o. split; [reflexivity | now right].
    + specialize (IH dist0 t1 curo0).
      destruct (fold_left _ rest _) as [[dist t] curo].
      destruct IH as [H | (o & -> & Hin)]; [now left | right].
      exists o. split; [reflexivity | now right].
    + specialize (IH dist0 t1 curo0).
      destruct (fold_left _ rest _) as [[dist t] curo].
      destruct IH as [H | (o & -> & Hin)]; [now left | right].
      exists o. split; [reflexivity | now right].
Qed.

(* A sphere that reports a hit leaves a distance above epsilon, whether it
   assigned it or not. *)
Lemma intersect_true_above_eps (s : Sphere.t D) (ray : Ray.t D) (tmp : D) :
  fst (Sphere.intersect s ray tmp) = true ->
  (deps < snd (Sphere.intersect s ray tmp)) = true.
Proof.
  unfold Sphere.intersect.
  destruct (Sphere.val3 s ray < dzero); cbn; [discriminate | trivial].
Qed.

Lemma reports_spheres (spheres : list (Sphere.t D)) (ray : Ray.t D) :
  forall (tmp : D) (o : Object.t D) (d : D),
    In (o, true, d) (reports (map Object.of_Sphere spheres) ray tmp) ->
    (deps < d) = true /\
    exists s : Sphere.t D, In s spheres /\ o = Object.of_Sphere s.
Proof.
  induction spheres as [| s rest IH]; intros tmp o d; cbn; [contradiction |].
  pose proof (intersect_true_above_eps s ray tmp) as Heps.
  destruct (Sphere.intersect s ray tmp) as [hit t]. cbn in Heps.
  intros [[= <- -> <-] | Hin].
  - split; [now apply Heps | exists s; split; [now left | reflexivity]].
  - destruct (IH t o d Hin) as (He & s' & Hs' & ->).
    split; [exact He | exists s'; split; [now right | reflexivity]].
Qed.

(** X3: in a scene of spheres, whenever the search of lines 369-376 records
    an object, that object is one of the spheres of the list, one of its
    [intersect] calls returned true and left the recorded distance, and the
    recorded distance is above epsilon: no pixel is shaded at a distance of
    zero or less. *)
Theorem nearest_spheres_above_eps (spheres : list (Sphere.t D))
    (ray : Ray.t D) (tmpdist dist tmpdist' : D) (o : Object.t D) :
  nearest (map Object.of_Sphere spheres) ray tmpdist
  = (dist, tmpdist', Some o) ->
  In (o, true, dist) (reports (map Object.of_Sphere spheres) ray tmpdist) /\
  (deps < dist) = true /\
  exists s : Sphere.t D, In s spheres /\ o = Object.of_Sphere s.
Proof.
  intros Hnear. unfold nearest in Hnear.
  pose proof (nearest_fold_records (map Object.of_Sphere spheres) ray
                dmax tmpdist None) as Hrec.
  rewrite Hnear in Hrec.
  destruct Hrec as [[_ [=]] | (o' & [= <-] & Hin)].
  split; [exact Hin |]. now apply (reports_spheres spheres ray tmpdist).
Qed.

Context `{!SignLaws D} `{!OrderLaws D}.

Lemma nearest_fold_least (objects : list (Object.t D)) (ray : Ray.t D) :
  forall (dist0 tmp0 : D) (curo0 : option (Object.t D)),
    let '(dist, _, curo) :=
      fold_left (nearest_step ray) objects (dist0, tmp0, curo0) in
    (dist0 < dist) = false /\
    ((dist = dist0 /\ curo = curo0) \/ (dist < dist0) = true) /\
    forall (o' : Object.t D) (d' : D),
      In (o', true, d') (reports objects ray tmp0) ->
      (d' < dist0) = true -> (d' < dist) = false.
Proof.
  induction objects as [| o1 rest IH]; intros dist0 tmp0 curo0; cbn.
  - split; [apply lt_irrefl | split; [now left | contradiction]].
  - destruct (Object.intersect o1 ray tmp0) as [hit t1] eqn:E.
    destruct hit; [destruct (t1 < dist0) eqn:Elt |].
    + specialize (IH t1 t1 (Some o1)).
      destruct (fold_left _ rest _) as [[dist t] curo].
      destruct IH as (Hle & Hcase & Hall).
      assert (Hlt : (dist < dist0) = true).
      { destruct Hcase as [[-> _] | Hlt]; [exact Elt |].
        exact (lt_trans _ _ _ Hlt Elt). }
      split; [now apply lt_asym | split; [now right |]].
      intros o' d' [[= <- <-] | Hin] Hd'; [exact Hle |].
      destruct (d' < t1) eqn:E1; [now apply (Hall o') |].
      destruct (d' < dist) eqn:E2; [| reflexivity].
      destruct Hcase as [[-> _] | Hlt1]; [congruence |].
      pose proof (lt_trans _ _ _ E2 Hlt1). congruence.
    + specialize (IH dist0 t1 curo0).
      destruct (fold_left _ rest _) as [[dist t] curo].
      destruct IH as (Hle & Hcase & Hall).
      split; [exact Hle | split; [exact Hcase |]].
      intros o' d' [[= <- <-] | Hin] Hd'; [congruence | now apply (Hall o')].
    + specialize (IH dist0 t1 curo0).
      destruct (fold_left _ rest _) as [[dist t] curo].
      destruct IH as (Hle & Hcase & Hall).
      split; [exact Hle | split; [exact Hcase |]].
      intros o' d' [[=] | Hin] Hd'. now apply (Hall o').
Qed.

(** X4: the search of lines 369-376 keeps the least distance.  When it
    records an object, one of that object's [intersect] calls returned true
    with the recorded distance, which is below [DBL_MAX], and no call of the
    pass returned true with a smaller one; when it records none, no call
    returned true with a distance below [DBL_MAX]. *)
Theorem nearest_is_least (objects : list (Object.t D)) (ray : Ray.t D)
    (tmpdist dist tmpdist' : D) (curo : option (Object.t D)) :
  nearest objects ray tmpdist = (dist, tmpdist', curo) ->
  match curo with
  | Some o =>
      In (o, true, dist) (reports objects ray tmpdist) /\
      (dist < dmax) = true
  | None => dist = dmax
  end /\
  forall (o' : Object.t D) (d' : D),
    In (o', true, d') (reports objects ray tmpdist) ->
    (d' < dist) = false.
Proof.
  intros Hnear. unfold nearest in Hnear.
  pose proof (nearest_fold_records objects ray dmax tmpdist None) as Hrec.
  pose proof (nearest_fold_least objects ray dmax tmpdist None) as Hleast.
  rewrite Hnear in Hrec, Hleast.
  destruct Hleast as (Hle & Hcase & Hall).
  split.
  - destruct Hrec as [[-> ->] | (o & -> & Hin)]; [reflexivity |].
    split; [exact Hin |].
    destruct Hcase as [[_ [=]] | Hlt]. exact Hlt.
  - intros o' d' Hin.
    destruct (d' < dmax) eqn:E; [now apply (Hall o') |].
    destruct (d' < dist) eqn:E2; [| reflexivity].
    destruct Hcase as [[-> _] | Hlt]; [congruence |].
    pose proof (lt_trans _ _ _ E2 Hlt). congruence.
Qed.
End NearestSearch.

Section NearestWitnesses.
Local Open Scope float_scope.

Lemma nearest_spheres_above_eps_witness : (deps < 15)%dbl = true.
Proof.
  refine (proj1 (proj2
    (nearest_spheres_above_eps [Sphere.mk (Vec3d.mk 0 0 (-20)) 5]
       ray_from_origin 0 15 15 first_sphere _))).
  vm_compute. reflexivity.
Defined.

Lemma nearest_is_least_witness :
  In (first_sphere, true, 15)
     (reports [first_sphere; sphere_beyond] ray_from_origin 0) /\
  (15 < dmax)%dbl = true.
Proof.
  refine (proj1
    (nearest_is_least [first_sphere; sphere_beyond] ray_from_origin
       0 15 (-29) (Some first_sphere) _)).
  vm_compute. reflexivity.
Defined.
End NearestWitnesses.

(** ** The geometry of [Sphere::intersect]

    What the formulas of [intersect] compute in exact arithmetic, and what
    the doubles make of them at the edges. *)

Section GeometryReal.
Local Open Scope R_scope.

(* The squared distance to the centre along the ray, as a polynomial in the
   parameter. *)
Lemma on_sphere_quadratic (s : Sphere.t R) (ray : Ray.t R) (t : R) :
  Vec3d.dotProduct (Ray.direction ray) (Ray.direction ray) = 1 ->
  on_sphere s (Ray.getPoint ray t) <->
  (t + Sphere.val1 s ray) * (t + Sphere.val1 s ray) = Sphere.val3 s ray.
Proof.
  intros Hu. rewrite val3_real. unfold on_sphere, Sphere.val1.
  destruct s as [[cx cy cz] r], ray as [[ox oy oz] [ux uy uz]].
  cbn in Hu; cbn. split; intros Hq; nra.
Qed.

Lemma roots_solve (s : Sphere.t R) (ray : Ray.t R) (t : R) :
  0 <= Sphere.val3 s ray ->
  (t + Sphere.val1 s ray) * (t + Sphere.val1 s ray) = Sphere.val3 s ray <->
  t = Sphere.dist1 s ray \/ t = Sphere.dist2 s ray.
Proof.
  intros Hdelta. unfold Sphere.dist1, Sphere.dist2. real_ops.
  pose proof (sqrt_sqrt _ Hdelta) as Hq.
  pose proof (sqrt_pos (Sphere.val3 s ray)) as Hq0.
  set (q := sqrt (Sphere.val3 s ray)) in *.
  set (v := Sphere.val1 s ray) in *.
  split.
  - intros Heq.
    assert (Hz : (t + v - q) * (t + v + q) = 0) by nra.
    apply Rmult_integral in Hz. destruct Hz; [left | right]; lra.
  - intros [-> | ->]; nra.
Qed.

Lemma roots_are_intersections_exact (s : Sphere.t R) (ray : Ray.t R) :
  Vec3d.length (Ray.direction ray) = 1 ->
  (0 <= Sphere.val3 s ray ->
   forall t : R,
     on_sphere s (Ray.getPoint ray t) <->
     t = Sphere.dist1 s ray \/ t = Sphere.dist2 s ray) /\
  (Sphere.val3 s ray < 0 <->
   forall t : R, ~ on_sphere s (Ray.getPoint ray t)) /\
  ((forall t : R, ~ on_sphere s (Ray.getPoint ray t)) ->
   forall stale : R, Sphere.intersect s ray stale = (false, stale)).
Proof.
  intros Hu. apply length_unit_dot in Hu.
  assert (Hmiss : (forall t : R, ~ on_sphere s (Ray.getPoint ray t)) ->
                  Sphere.val3 s ray < 0).
  { intros Hmiss.
    destruct (Rlt_dec (Sphere.val3 s ray) 0) as [Hlt | Hge]; [exact Hlt |].
    exfalso. apply (Hmiss (Sphere.dist1 s ray)).
    apply on_sphere_quadratic; [exact Hu |].
    apply roots_solve; [lra | now left]. }
  split; [| split].
  - intros Hdelta t. rewrite on_sphere_quadratic by exact Hu.
    now apply roots_solve.
  - split; [| exact Hmiss].
    intros Hneg t Hon. apply on_sphere_quadratic in Hon; [| exact Hu].
    pose proof (Rle_0_sqr (t + Sphere.val1 s ray)) as Hsq.
    unfold Rsqr in Hsq. lra.
  - intros Hno stale. apply intersect_no_root, Rltb_true. real_ops.
    now apply Hmiss.
Qed.

(* A point of the sphere is at the distance of the radius from the centre,
   and the normal the code computes there has length 1. *)
Lemma on_sphere_length (s : Sphere.t R) (P : Vec3d.t R) :
  0 <= Sphere.radius s ->
  on_sphere s P ->
  Vec3d.length (Vec3d.sub P (Sphere.center s)) = Sphere.radius s.
Proof.
  intros Hr Hon. unfold Vec3d.length. rewrite Hon. now apply sqrt_square.
Qed.

Lemma getNormal_unit (s : Sphere.t R) (P : Vec3d.t R) :
  0 < Sphere.radius s ->
  on_sphere s P ->
  Vec3d.dotProduct (Sphere.getNormal s P) (Sphere.getNormal s P) = 1 /\
  Vec3d.length (Sphere.getNormal s P) = 1 /\
  Sphere.getNormal s P = Vec3d.normalize (Vec3d.sub P (Sphere.center s)).
Proof.
  intros Hr Hon.
  assert (Hlen : Vec3d.length (Vec3d.sub P (Sphere.center s))
                 = Sphere.radius s)
    by (apply on_sphere_length; [lra | exact Hon]).
  assert (Hnorm : Sphere.getNormal s P
                  = Vec3d.normalize (Vec3d.sub P (Sphere.center s))).
  { unfold Vec3d.normalize. now rewrite Hlen. }
  rewrite Hnorm.
  destruct (normalize_unit (Vec3d.sub P (Sphere.center s))) as [Hd Hl].
  { rewrite Hlen. lra. }
  auto.
Qed.

(* The distance that a call which reports a hit and selects a root leaves. *)
Lemma intersect_selected (s : Sphere.t R) (ray : Ray.t R) (stale : R) :
  Sphere.dist2 s ray <> 0 ->
  fst (Sphere.intersect s ray stale) = true ->
  let d := snd (Sphere.intersect s ray stale) in
  0 <= Sphere.val3 s ray /\ deps < d /\
  ((Sphere.dist2 s ray < 0 /\ d = Sphere.dist1 s ray) \/
   (0 < Sphere.dist2 s ray /\ d = Sphere.dist2 s ray)).
Proof.
  intros Hnz Hhit d. subst d.
  destruct (Rlt_dec (Sphere.val3 s ray) 0) as [Hlt | Hge].
  { rewrite intersect_no_root in Hhit by (now apply Rltb_true).
    discriminate. }
  assert (Hdelta : (Sphere.val3 s ray < dzero)%dbl = false)
    by (apply Rltb_false; real_ops; lra).
  pose proof (roots_ordered s ray) as Hord.
  destruct (Rlt_dec (Sphere.dist2 s ray) 0) as [H2 | H2].
  - assert (Ha : Sphere.assigned (Sphere.dist1 s ray) (Sphere.dist2 s ray)
                 = Some (Sphere.dist1 s ray)).
    { rewrite assigned_first_branch.
      - rewrite std_max_real, Rmax_left by lra. reflexivity.
      - apply orb_true_iff. right. now apply Rltb_true. }
    rewrite (intersect_assigned s ray _ stale Hdelta Ha) in Hhit |- *.
    cbn [fst snd] in Hhit |- *; apply Rltb_true in Hhit. real_ops.
    split; [lra | split; [exact Hhit | left; now split]].
  - assert (Ha : Sphere.assigned (Sphere.dist1 s ray) (Sphere.dist2 s ray)
                 = Some (Sphere.dist2 s ray)).
    { unfold Sphere.assigned. real_ops.
      assert (E1 : Rltb (Sphere.dist1 s ray) 0 = false)
        by (apply Rltb_false; lra).
      assert (E2 : Rltb (Sphere.dist2 s ray) 0 = false)
        by (apply Rltb_false; lra).
      assert (E3 : Rltb 0 (Sphere.dist1 s ray) = true)
        by (apply Rltb_true; lra).
      assert (E4 : Rltb 0 (Sphere.dist2 s ray) = true)
        by (apply Rltb_true; lra).
      rewrite E1, E2, E3, E4. cbn [orb andb].
      rewrite std_min_real, Rmin_right by lra. reflexivity. }
    rewrite (intersect_assigned s ray _ stale Hdelta Ha) in Hhit |- *.
    cbn [fst snd] in Hhit |- *; apply Rltb_true in Hhit. real_ops.
    split; [lra | split; [exact Hhit | right; split; [lra | reflexivity]]].
Qed.

Lemma hit_point_on_sphere_exact (s : Sphere.t R) (ray : Ray.t R) (stale : R) :
  Vec3d.length (Ray.direction ray) = 1 ->
  0 < Sphere.radius s ->
  Sphere.dist2 s ray <> 0 ->
  fst (Sphere.intersect s ray stale) = true ->
  let d := snd (Sphere.intersect s ray stale) in
  let P := Ray.getPoint ray d in
  on_sphere s P /\
  Sphere.getNormal s P = Vec3d.normalize (Vec3d.sub P (Sphere.center s)) /\
  Vec3d.length (Sphere.getNormal s P) = 1 /\
  deps < d /\
  forall t : R, 0 < t < d -> ~ on_sphere s (Ray.getPoint ray t).
Proof.
  intros Hu Hr Hnz Hhit d P.
  destruct (intersect_selected s ray stale Hnz Hhit) as (Hdelta & Hd & Hsel).
  fold d in Hd, Hsel.
  assert (Hon : on_sphere s P).
  { subst P. apply on_sphere_quadratic; [now apply length_unit_dot |].
    apply roots_solve; [exact Hdelta |].
    destruct Hsel as [[_ ->] | [_ ->]]; auto. }
  destruct (getNormal_unit s P Hr Hon) as (_ & Hl & Hn).
  repeat split; trivial.
  intros t Ht Hont.
  apply on_sphere_quadratic in Hont; [| now apply length_unit_dot].
  apply roots_solve in Hont; [| exact Hdelta].
  pose proof (roots_ordered s ray).
  destruct Hsel as [[H2 Hd1] | [H2 Hd2]], Hont as [Ht1 | Ht2]; lra.
Qed.

Lemma sphere_behind_no_hit_exact (s : Sphere.t R) (ray : Ray.t R) (stale : R) :
  0 < Sphere.val1 s ray ->
  Sphere.radius s * Sphere.radius s
  <= Vec3d.dotProduct (Vec3d.sub (Ray.origin ray) (Sphere.center s))
                      (Vec3d.sub (Ray.origin ray) (Sphere.center s)) ->
  fst (Sphere.intersect s ray stale) = false.

Proof.
  intros Hv Hout.
  destruct (Rlt_dec (Sphere.val3 s ray) 0) as [Hlt | Hge].
  { now rewrite intersect_no_root by (now apply Rltb_true). }
  assert (Hdelta : 0 <= Sphere.val3 s ray) by lra.
  pose proof (sqrt_sqrt _ Hdelta) as Hq.
  pose proof (sqrt_pos (Sphere.val3 s ray)) as Hq0.
  pose proof (val3_real s ray) as H3.
  assert (H1 : Sphere.dist1 s ray <= 0).
  { unfold Sphere.dist1. real_ops. nra. }
  assert (H2 : Sphere.dist2 s ray < 0).
  { unfold Sphere.dist2. real_ops. lra. }
  pose proof (roots_ordered s ray) as Hord.
  rewrite (intersect_assigned s ray (Sphere.dist1 s ray) stale).
  - cbn [fst]. apply Rltb_false. real_ops. lra.
  - apply Rltb_false. real_ops. lra.
  - rewrite assigned_first_branch.
    + rewrite std_max_real, Rmax_left by lra. reflexivity.
    + apply orb_true_iff. right. now apply Rltb_true.
Qed.

(* The ray down the z axis has a direction of length 1. *)
Lemma ray_from_origin_real_unit :
  Vec3d.length (Ray.direction ray_from_origin_real) = 1.
Proof.
  unfold Vec3d.length. cbn.
  replace (0 * 0 + 0 * 0 + -1 * -1) with 1 by lra. apply sqrt_1.
Qed.

Lemma unit_sphere_real_hit (stale : R) :
  Sphere.intersect unit_sphere_real ray_from_origin_real stale = (true, 1).
Proof.
  destruct unit_sphere_real_roots as (H3 & H1 & H2).
  rewrite (intersect_assigned _ _ 1 stale).
  - f_equal. apply Rltb_true. real_ops. lra.
  - apply Rltb_false. rewrite H3. real_ops. lra.
  - rewrite H1, H2, assigned_first_branch.
    + rewrite std_max_real, Rmax_left by lra. reflexivity.
    + apply orb_true_iff. right. apply Rltb_true. real_ops. lra.
Qed.
End GeometryReal.

(** X5: in exact arithmetic, for a direction of length 1, the two roots
    that [intersect] computes are the parameters at which the line of the
    ray meets the sphere, the discriminant is below zero exactly when the
    line does not meet the sphere, and then [intersect] returns false and
    leaves the caller's distance.  On doubles the discriminant is rounded:
    the z axis touches a sphere at (0,0,-2), a point of the sphere, and the
    call returns false; it passes another sphere by, the centre farther
    from the axis than the radius, and the call returns true. *)
Theorem roots_are_intersections :
  (forall (s : Sphere.t R) (ray : Ray.t R),
     Vec3d.length (Ray.direction ray) = 1%R ->
     ((0 <= Sphere.val3 s ray)%R ->
      forall t : R,
        on_sphere s (Ray.getPoint ray t) <->
        t = Sphere.dist1 s ray \/ t = Sphere.dist2 s ray) /\
     ((Sphere.val3 s ray < 0)%R <->
      forall t : R, ~ on_sphere s (Ray.getPoint ray t)) /\
     ((forall t : R, ~ on_sphere s (Ray.getPoint ray t)) ->
      forall stale : R, Sphere.intersect s ray stale = (false, stale))) /\
  (let P := Ray.getPoint ray_from_origin 2 in
   Vec3d.dotProduct (Vec3d.sub P (Sphere.center tangent_sphere))
                    (Vec3d.sub P (Sphere.center tangent_sphere))
   = Sphere.radius tangent_sphere * Sphere.radius tangent_sphere /\
   (Sphere.val3 tangent_sphere ray_from_origin <? 0) = true /\
   Sphere.intersect tangent_sphere ray_from_origin 100 = (false, 100) /\
   (Sphere.radius passed_sphere <? Vec3d.x (Sphere.center passed_sphere))
   = true /\
   Sphere.intersect passed_sphere ray_from_origin 100
   = (true, 0x1.3fffffcp+2))%float.
Proof.
  split; [exact roots_are_intersections_exact |].
  repeat split; vm_compute; reflexivity.
Qed.

(** X7: in exact arithmetic, when [intersect] reports a hit for a ray of
    unit direction and no root is zero, the point [getPoint] gives at the
    returned distance is on the sphere, [getNormal] there is
    [normalize (point - center)], of length 1, the distance exceeds epsilon
    and no point of the ray before it is on the sphere.  On doubles the
    point is rounded: for a sphere of radius 0.001 at 10^7 along the x
    axis the call reports a hit and the normal at the point returned has
    length 1.00000016. *)
Theorem hit_point_on_sphere :
  (forall (s : Sphere.t R) (ray : Ray.t R) (stale : R),
     Vec3d.length (Ray.direction ray) = 1%R ->
     (0 < Sphere.radius s)%R ->
     Sphere.dist2 s ray <> 0%R ->
     fst (Sphere.intersect s ray stale) = true ->
     let d := snd (Sphere.intersect s ray stale) in
     let P := Ray.getPoint ray d in
     on_sphere s P /\
     Sphere.getNormal s P = Vec3d.normalize (Vec3d.sub P (Sphere.center s)) /\
     Vec3d.length (Sphere.getNormal s P) = 1%R /\
     (deps < d)%R /\
     forall t : R, (0 < t < d)%R -> ~ on_sphere s (Ray.getPoint ray t)) /\
  (Vec3d.length (Ray.direction ray_along_x) = 1 /\
   Sphere.intersect small_far_sphere ray_along_x 100
   = (true, 0x1.312cffff7ced9p+23) /\
   Vec3d.length
     (Sphere.getNormal small_far_sphere
        (Ray.getPoint ray_along_x 0x1.312cffff7ced9p+23))
   = 0x1.000002cp+0)%float.
Proof.
  split; [exact hit_point_on_sphere_exact |].
  repeat split; vm_compute; reflexivity.
Qed.

(** X9: in exact arithmetic, a sphere whose centre is not ahead of the ray
    origin and that does not hold the origin in its inside reports no hit,
    whatever the caller's distance held.  On doubles a large sphere behind
    the ray, the origin outside it, is reported hit: the square of the
    distance to its centre rounds to the square of its radius. *)
Theorem sphere_behind_no_hit :
  (forall (s : Sphere.t R) (ray : Ray.t R) (stale : R),
     (0 < Sphere.val1 s ray)%R ->
     (Sphere.radius s * Sphere.radius s
      <= Vec3d.dotProduct (Vec3d.sub (Ray.origin ray) (Sphere.center s))
                          (Vec3d.sub (Ray.origin ray) (Sphere.center s)))%R ->
     fst (Sphere.intersect s ray stale) = false) /\
  ((0 <? Sphere.val1 large_sphere_behind ray_from_origin) = true /\
   Vec3d.x (Sphere.center large_sphere_behind)
   = Sphere.radius large_sphere_behind /\
   (0 <? Vec3d.z (Sphere.center large_sphere_behind)) = true /\
   Sphere.intersect large_sphere_behind ray_from_origin 100
   = (true, 0.109375))%float.
Proof.
  split; [exact sphere_behind_no_hit_exact |].
  repeat split; vm_compute; reflexivity.
Qed.

Section GeometryWitnesses.
Local Open Scope R_scope.

Lemma roots_are_intersections_witness :
  on_sphere unit_sphere_real (Ray.getPoint ray_from_origin_real 1).
Proof.
  destruct unit_sphere_real_roots as (H3 & H1 & H2).
  apply (proj1 (proj1 roots_are_intersections unit_sphere_real
                  ray_from_origin_real ray_from_origin_real_unit)).
  - rewrite H3. lra.
  - left. now rewrite H1.
Defined.

Lemma hit_point_on_sphere_witness :
  on_sphere unit_sphere_real
    (Ray.getPoint ray_from_origin_real
       (snd (Sphere.intersect unit_sphere_real ray_from_origin_real 7))).
Proof.
  destruct unit_sphere_real_roots as (H3 & H1 & H2).
  apply (proj1 hit_point_on_sphere unit_sphere_real ray_from_origin_real 7
           ray_from_origin_real_unit).
  - cbn. lra.
  - rewrite H2. lra.
  - now rewrite unit_sphere_real_hit.
Defined.

Lemma sphere_behind_no_hit_witness :
  fst (Sphere.intersect sphere_behind_real ray_from_origin_real 7) = false.
Proof.
  apply (proj1 sphere_behind_no_hit); cbn; lra.
Defined.
End GeometryWitnesses.

(** ** The image, for every arithmetic *)

Section ImageShape.
Context {D : Type} {arith : Arith D}.
Variable M_PI : D.
Variable tan : D -> D.
Variables W H : nat.
Variable FOV : D.
Variables (objects : list (Object.t D)) (lights : list (Light.t D)).
Variables background scolor : Color.t D.
Variable garbage : nat -> nat -> D.

Abbreviation image :=
  (render M_PI tan W H FOV objects lights background scolor garbage).

(** X10: the image holds [H * W] colours in row-major order: the entry of
    index [i] is the colour of the pixel of column [i mod W] and row
    [i / W], and there is no entry from [H * W] on. *)
Theorem image_row_major (i : nat) :
  length image = (H * W)%nat /\
  ((i < H * W)%nat ->
   nth_error image i
   = Some (pixel objects lights background scolor
             (primary_ray M_PI tan W H FOV (i mod W) (i / W))
             (garbage (i mod W) (i / W)))) /\
  ((H * W <= i)%nat -> nth_error image i = None).
Proof.
  assert (Hlen : length image = (H * W)%nat) by apply render_length.
  split; [exact Hlen | split].
  - intros Hi.
    assert (HW : W <> 0%nat) by (intros ->; lia).
    pose proof (Nat.div_mod_eq i W) as Hdm.
    pose proof (Nat.mod_upper_bound i W HW) as Hmod.
    assert (Hrow : (i / W < H)%nat).
    { apply Nat.Div0.div_lt_upper_bound. lia. }
    replace i with (i / W * W + i mod W)%nat at 1 by lia.
    now apply render_pixel.
  - intros Hi. apply nth_error_None. now rewrite Hlen.
Qed.
End ImageShape.

Section EmptyScene.
Context {D : Type} {arith : Arith D}.

Lemma flat_map_repeat (A : Type) (a : A) (W H start : nat) :
  flat_map (fun _ : nat => repeat a W) (seq start H) = repeat a (H * W).
Proof.
  revert start. induction H as [| H IH]; intros start; cbn [seq flat_map].
  - reflexivity.
  - rewrite IH. cbn [Nat.mul]. now rewrite repeat_app.
Qed.

Lemma map_const_seq (A : Type) (a : A) (W start : nat) :
  map (fun _ : nat => a) (seq start W) = repeat a W.
Proof.
  revert start. induction W as [| W IH]; intros start; cbn; [reflexivity |].
  now rewrite IH.
Qed.

(** X11: with no object in the scene every pixel is stored as the
    background colour, as it is: the image is [H * W] copies of it,
    whatever the lights, the camera and the uninitialised [tmpdist]. *)
Theorem empty_scene_is_background (M_PI : D) (tan : D -> D) (W H : nat)
    (FOV : D) (lights : list (Light.t D)) (background scolor : Color.t D)
    (garbage : nat -> nat -> D) :
  render M_PI tan W H FOV [] lights background scolor garbage
  = repeat background (H * W).
Proof.
  unfold render.
  rewrite (flat_map_ext _ (fun _ : nat => repeat background W)).
  - apply flat_map_repeat.
  - intros y. exact (map_const_seq _ background W 0).
Qed.
End EmptyScene.

(** ** Shaded pixels *)

Section ShadedPixels.
Context {D : Type} {arith : Arith D}.

(* Occluded lights add nothing. *)
Lemma fold_all_occluded (objects : list (Object.t D)) (scolor : Color.t D)
    (pintersect n : Vec3d.t D) (lights : list (Light.t D)) :
  forall (px : Color.t D) (tmpdist : D),
    all_occluded objects pintersect lights tmpdist = true ->
    fst (fold_left (light_step objects scolor pintersect n) lights
           (px, tmpdist)) = px.
Proof.
  induction lights as [| l rest IH]; intros px tmpdist Hall; cbn.
  - reflexivity.
  - cbn in Hall. unfold shadow_ray, light_vector in Hall.
    destruct (blocked objects _ tmpdist) as [b t].
    apply andb_true_iff in Hall as [-> Hrest]. now apply IH.
Qed.

Lemma pixel_all_occluded (objects : list (Object.t D))
    (lights : list (Light.t D)) (background scolor : Color.t D)
    (ray : Ray.t D) (tmpdist dist tmpdist' : D) (o : Object.t D) :
  nearest objects ray tmpdist = (dist, tmpdist', Some o) ->
  all_occluded objects (Ray.getPoint ray dist) lights tmpdist' = true ->
  pixel objects lights background scolor ray tmpdist
  = finish scolor Color.default.
Proof.
  intros Hnear Hall.
  rewrite (pixel_hit objects lights background scolor ray tmpdist
             dist tmpdist' o Hnear).
  unfold accumulated. now rewrite fold_all_occluded.
Qed.

Context `{!SignLaws D} `{!OrderLaws D}.

(** X12: every channel of the colour stored for a pixel whose search
    recorded an object is neither below 0 nor above 1, on doubles as over
    the reals: the two clamps of lines 405-407 bound what reaches the frame
    buffer, whatever the lights added. *)
Theorem shaded_pixel_in_unit (M_PI : D) (tan : D -> D) (W H : nat)
    (FOV : D) (objects : list (Object.t D)) (lights : list (Light.t D))
    (background scolor : Color.t D) (garbage : nat -> nat -> D)
    (x y : nat) (dist tmpdist' : D) (o : Object.t D) :
  (x < W)%nat -> (y < H)%nat ->
  nearest objects (primary_ray M_PI tan W H FOV x y) (garbage x y)
  = (dist, tmpdist', Some o) ->
  exists px : Color.t D,
    nth_error
      (render M_PI tan W H FOV objects lights background scolor garbage)
      (y * W + x)%nat = Some px /\
    in_unit (Color.r px) /\ in_unit (Color.g px) /\ in_unit (Color.b px).
Proof.
  intros Hx Hy Hnear.
  rewrite (render_pixel M_PI tan W H FOV objects lights background scolor
             garbage x y Hx Hy).
  eexists. split; [reflexivity |].
  rewrite (pixel_hit _ _ _ _ _ _ _ _ _ Hnear). apply finish_in_unit.
Qed.
End ShadedPixels.

Section ShadowedPixels.
Context {D : Type} {arith : Arith D} `{!SignLaws D} `{!OrderLaws D}.

Lemma saturate_zero : saturate dzero = dzero.
Proof.
  unfold saturate. now rewrite lt_irrefl, (lt_asym _ _ zero_lt_unit).
Qed.

(** X13: a pixel whose search recorded an object and whose lights are all
    found occluded is stored as the ambient term alone: each channel is
    [0 + scolor * 0.1] clamped to [0,1], whatever the colours and the
    places of the lights, on doubles as in every arithmetic with the laws
    of the order. *)
Theorem shadowed_pixel_is_ambient (M_PI : D) (tan : D -> D) (W H : nat)
    (FOV : D) (objects : list (Object.t D)) (lights : list (Light.t D))
    (background scolor : Color.t D) (garbage : nat -> nat -> D)
    (x y : nat) (dist tmpdist' : D) (o : Object.t D) :
  (x < W)%nat -> (y < H)%nat ->
  let ray := primary_ray M_PI tan W H FOV x y in
  nearest objects ray (garbage x y) = (dist, tmpdist', Some o) ->
  all_occluded objects (Ray.getPoint ray dist) lights tmpdist' = true ->
  nth_error
    (render M_PI tan W H FOV objects lights background scolor garbage)
    (y * W + x)%nat
  = Some (Color.mk (saturate (dzero + Color.r scolor * dtenth))
                   (saturate (dzero + Color.g scolor * dtenth))
                   (saturate (dzero + Color.b scolor * dtenth))).
Proof.
  intros Hx Hy ray Hnear Hall.
  rewrite (render_pixel M_PI tan W H FOV objects lights background scolor
             garbage x y Hx Hy).
  f_equal. fold ray.
  rewrite (pixel_all_occluded objects lights background scolor ray
             (garbage x y) dist tmpdist' o Hnear Hall).
  rewrite finish_shaded. unfold shaded, shaded_channel, Color.default.
  cbn [Color.r Color.g Color.b]. now rewrite saturate_zero.
Qed.
End ShadowedPixels.

Section UnseenHits.
Context {D : Type} {arith : Arith D}.

(* Hits that are not below the initial distance leave the search where it
   started. *)
Lemma nearest_fold_unseen (objects : list (Object.t D)) (ray : Ray.t D) :
  forall (tmpdist : D) (curo : option (Object.t D)),
    (forall (o : Object.t D) (d : D),
       In (o, true, d) (reports objects ray tmpdist) -> (d < dmax) = false) ->
    exists tmpdist' : D,
      fold_left (nearest_step ray) objects (dmax, tmpdist, curo)
      = (dmax, tmpdist', curo).
Proof.
  induction objects as [| o1 rest IH]; intros tmpdist curo Hfar.
  - now exists tmpdist.
  - cbn in Hfar |- *.
    destruct (Object.intersect o1 ray tmpdist) as [hit t].
    assert (Hrest : forall (o : Object.t D) (d : D),
              In (o, true, d) (reports rest ray t) -> (d < dmax) = false)
      by (intros o d Hin; apply (Hfar o d); now right).
    destruct hit; [| now apply IH].
    rewrite (Hfar o1 t (or_introl eq_refl)). now apply IH.
Qed.

(** X26: a hit is seen only below [DBL_MAX].  For a pixel all of whose
    [intersect] calls of the search that return true leave a distance that
    is not below [numeric_limits<double>::max()], an infinite one or a NaN
    on doubles, nothing is recorded and the colour stored is the background
    colour, as for a pixel with no hit at all. *)
Theorem far_hit_is_background (M_PI : D) (tan : D -> D) (W H : nat)
    (FOV : D) (objects : list (Object.t D)) (lights : list (Light.t D))
    (background scolor : Color.t D) (garbage : nat -> nat -> D)
    (x y : nat) :
  (x < W)%nat -> (y < H)%nat ->
  (forall (o : Object.t D) (d : D),
     In (o, true, d)
        (reports objects (primary_ray M_PI tan W H FOV x y) (garbage x y)) ->
     (d < dmax) = false) ->
  nth_error
    (render M_PI tan W H FOV objects lights background scolor garbage)
    (y * W + x)%nat
  = Some background.
Proof.
  intros Hx Hy Hfar.
  rewrite render_pixel by assumption. f_equal.
  unfold pixel, nearest.
  destruct (nearest_fold_unseen objects _ (garbage x y) None Hfar)
    as [t ->].
  reflexivity.
Qed.
End UnseenHits.

Section OutputOrder.
Context {D : Type} {arith : Arith D}.

(** X27: the loop of lines 421-426 hands the stream the pixels in the order
    the frame buffer holds them, row after row: the triple of index [i] is
    made of [round] of each channel of the colour of the pixel of column
    [i mod W] and row [i / W] times [MAX_VAL], there are [H * W] triples,
    and none from [H * W] on. *)
Theorem output_row_major (round : D -> D) (MAX_VAL : nat) (M_PI : D)
    (tan : D -> D) (W H : nat) (FOV : D) (objects : list (Object.t D))
    (lights : list (Light.t D)) (background scolor : Color.t D)
    (garbage : nat -> nat -> D) (i : nat) :
  let image :=
    render M_PI tan W H FOV objects lights background scolor garbage in
  let px :=
    pixel objects lights background scolor
      (primary_ray M_PI tan W H FOV (i mod W) (i / W))
      (garbage (i mod W)%nat (i / W)%nat) in
  length (quantize round MAX_VAL image) = (H * W)%nat /\
  ((i < H * W)%nat ->
   nth_error (quantize round MAX_VAL image) i
   = Some (Color.mk (round (Color.r px * dofnat MAX_VAL))
                    (round (Color.g px * dofnat MAX_VAL))
                    (round (Color.b px * dofnat MAX_VAL)))) /\
  ((H * W <= i)%nat -> nth_error (quantize round MAX_VAL image) i = None).
Proof.
  intros image px.
  assert (Hlen : length (quantize round MAX_VAL image) = (H * W)%nat).
  { unfold quantize. rewrite length_map. apply render_length. }
  split; [exact Hlen | split].
  - intros Hi.
    assert (HW : W <> 0%nat) by (intros ->; lia).
    pose proof (Nat.div_mod_eq i W) as Hdm.
    pose proof (Nat.mod_upper_bound i W HW) as Hmod.
    assert (Hrow : (i / W < H)%nat).
    { apply Nat.Div0.div_lt_upper_bound. lia. }
    unfold quantize. rewrite nth_error_map.
    replace i with (i / W * W + i mod W)%nat at 1 by lia.
    unfold image. rewrite render_pixel by assumption.
    reflexivity.
  - intros Hi. apply nth_error_None. now rewrite Hlen.
Qed.
End OutputOrder.

(** ** Lengths and primary rays, on doubles *)

(** X28: on doubles, whatever the rounding, [Vec3d::length] never returns a
    value below zero, and whatever the image size, the field of view, the
    pixel and the values of [tan] and [M_PI], NaNs and infinities included,
    the primary ray starts at the origin and the z of its direction is never
    above zero: the camera never looks backwards. *)
Theorem primary_ray_forward (M_PI : float) (tan : float -> float)
    (W H : nat) (FOV : float) (x y : nat) (v : Vec3d.t float) :
  (Vec3d.length v < dzero) = false /\
  let ray := primary_ray M_PI tan W H FOV x y in
  Ray.origin ray = Vec3d.mk dzero dzero dzero /\
  (dzero < Vec3d.z (Ray.direction ray)) = false.
Proof.
  split; [apply plus_signed_not_below, length_plus_signed |].
  cbn zeta. split; [reflexivity |].
  unfold primary_ray. cbn [Ray.direction]. unfold Vec3d.normalize, Vec3d.div.
  cbn [Vec3d.z ddiv dneg dunit dlt dzero float_arith].
  apply div_minus_one, length_plus_signed.
Qed.

(** ** Vectors, in exact arithmetic and on doubles *)

Section VectorAlgebraReal.
Local Open Scope R_scope.

(** X20: over the reals the operators undo one another: subtracting what
    was added, and dividing by the non-zero factor that was multiplied by,
    give the vector back; on doubles neither does in general, a small
    vector added to a large one being lost. *)
Theorem vector_operators_round_trip :
  (forall a b : Vec3d.t R, Vec3d.sub (Vec3d.add a b) b = a) /\
  (forall a b : Vec3d.t R, Vec3d.add (Vec3d.sub a b) b = a) /\
  (forall (v : Vec3d.t R) (k : R),
     k <> 0 -> Vec3d.div (Vec3d.mul v k) k = v) /\
  (Vec3d.sub (Vec3d.add (Vec3d.mk 1 1 1) (Vec3d.mk 0x1p60 0x1p60 0x1p60))
             (Vec3d.mk 0x1p60 0x1p60 0x1p60)
   = Vec3d.mk 0 0 0)%float.
Proof.
  repeat split.
  - intros [a1 a2 a3] [b1 b2 b3]. vec_ops. f_equal; ring.
  - intros [a1 a2 a3] [b1 b2 b3]. vec_ops. f_equal; ring.
  - intros [a1 a2 a3] k Hk. vec_ops. f_equal; field; exact Hk.
Qed.
End VectorAlgebraReal.

(** ** [check_op_overloading] *)

(** X21: the five values that [check_op_overloading] prints are the ones
    written next to them in its output, (1,2,3), (2,4,6), (1,2,3), (1,4,9)
    and (2,4,6), on doubles and over the reals. *)
Theorem check_op_overloading_expected :
  (check_op_overloading
   = (Vec3d.mk 1 2 3, Vec3d.mk 2 4 6,
      Color.mk 1 2 3, Color.mk 1 4 9, Color.mk 2 4 6))%float /\
  (check_op_overloading
   = (Vec3d.mk 1 2 3, Vec3d.mk 2 4 6,
      Color.mk 1 2 3, Color.mk 1 4 9, Color.mk 2 4 6))%R.
Proof.
  split.
  - vm_compute. reflexivity.
  - unfold check_op_overloading, Color.add, Color.mul, Color.scale,
      Color.default.
    vec_ops. cbn [Color.r Color.g Color.b INR].
    repeat f_equal; lra.
Qed.

(** ** The theorems above at pixels of the image of [main] *)

Section SceneWitnesses.

(* On doubles, the pixel in the middle of the image of [main]. *)
Lemma shaded_pixel_in_unit_witness :
  exists px : Color.t float,
    nth_error (main_image (fun _ _ => 0%float)) (250 * 800 + 400) = Some px /\
    in_unit (Color.r px) /\ in_unit (Color.g px) /\ in_unit (Color.b px).
Proof.
  refine (shaded_pixel_in_unit M_PI_double tan_half_fov 800 500 100%float
            main_objects main_lights main_background main_scolor
            (fun _ _ => 0%float) 400 250 _ _ _ _ _ _).
  - lia.
  - lia.
  - vm_compute. reflexivity.
Defined.

(* The pixel in the middle of the image of [main] sees the first sphere at
   a point from which the second sphere hides the light. *)
Lemma shadowed_pixel_is_ambient_witness :
  nth_error (main_image (fun _ _ => 0%float)) (250 * 800 + 400)
  = Some (Color.mk 0x1.999999999999ap-4 0 0)%float.
Proof.
  refine (eq_trans
    (shadowed_pixel_is_ambient M_PI_double tan_half_fov 800 500 100%float
       main_objects main_lights main_background main_scolor
       (fun _ _ => 0%float) 400 250 _ _ _ _ _ _ _) _).
  - lia.
  - lia.
  - vm_compute. reflexivity.
  - vm_compute. reflexivity.
  - vm_compute. reflexivity.
Defined.

(* An image of one pixel whose ray gets a hit at an infinite distance from
   the sphere around the camera. *)
Lemma far_hit_is_background_witness :
  Object.intersect huge_sphere
    (primary_ray M_PI_double tan_half_fov 1 1 100%float 0 0) 7%float
  = (true, infinity) /\
  nth_error
    (render M_PI_double tan_half_fov 1 1 100%float [huge_sphere] main_lights
       main_background main_scolor (fun _ _ => 7%float)) (0 * 1 + 0)
  = Some main_background.
Proof.
  split; [vm_compute; reflexivity |].
  apply far_hit_is_background; [lia | lia |].
  intros o d Hin. vm_compute in Hin.
  destruct Hin as [[= _ <-] | []]. vm_compute. reflexivity.
Defined.

(* The triple written for pixel (20,0) of the image of [main], with the
   identity in the place of [round]. *)
Lemma output_row_major_witness :
  nth_error (quantize (fun v => v) 255 (main_image (fun _ _ => 0%float))) 20
  = Some (Color.mk 25.5 0 0)%float.
Proof.
  refine (eq_trans
    (proj1 (proj2
      (output_row_major (fun v => v) 255 M_PI_double tan_half_fov 800 500
         100%float main_objects main_lights main_background main_scolor
         (fun _ _ => 0%float) 20)) _) _).
  - lia.
  - vm_compute. reflexivity.
Defined.
End SceneWitnesses.

(** ** More edges of [Sphere::intersect] *)

Section NaNDoubles.
Local Open Scope float_scope.

Lemma float_arith_nan (x : float) :
  x + nan = nan /\ x - nan = nan /\ PrimFloat.sqrt nan = nan.
Proof.
  repeat split; apply Prim2SF_inj;
    rewrite ?add_spec, ?sub_spec, ?sqrt_spec;
    change (Prim2SF nan) with S754_nan;
    try (destruct (Prim2SF x) as [ [] | [] | | [] m e ]); reflexivity.
Qed.

(** X23: on doubles, when the discriminant is a NaN, as it is once a
    coordinate of the ray or of the sphere is one, [intersect] does not
    return false: both roots are NaN, no branch assigns the distance, and
    the result is the test of the value the caller's variable held. *)
Theorem intersect_nan_follows_stale (s : Sphere.t float) (ray : Ray.t float)
    (stale : float) :
  Sphere.val3 s ray = nan ->
  Sphere.dist1 s ray = nan /\ Sphere.dist2 s ray = nan /\
  Sphere.intersect s ray stale = ((deps < stale)%dbl, stale).
Proof.
  intros Hnan.
  assert (H1 : Sphere.dist1 s ray = nan).
  { unfold Sphere.dist1. rewrite Hnan. cbn [dadd dsqrt dneg float_arith].
    destruct (float_arith_nan (- Sphere.val1 s ray)) as (Ha & _ & Hs).
    now rewrite Hs, Ha. }
  assert (H2 : Sphere.dist2 s ray = nan).
  { unfold Sphere.dist2. rewrite Hnan. cbn [dsub dsqrt dneg float_arith].
    destruct (float_arith_nan (- Sphere.val1 s ray)) as (_ & Hb & Hs).
    now rewrite Hs, Hb. }
  split; [exact H1 | split; [exact H2 |]].
  apply intersect_unassigned.
  - rewrite Hnan. reflexivity.
  - rewrite H1, H2. reflexivity.
Qed.

Lemma intersect_nan_follows_stale_witness :
  Sphere.intersect (Sphere.mk (Vec3d.mk nan 0 0) 1) ray_from_origin 1
  = (true, 1).
Proof.
  refine (eq_trans
    (proj2 (proj2
      (intersect_nan_follows_stale (Sphere.mk (Vec3d.mk nan 0 0) 1)
         ray_from_origin 1 _))) _);
    vm_compute; reflexivity.
Defined.
End NaNDoubles.

(** ** The shadow test and the full pass *)

Section AnyHit.
Context {D : Type} {arith : Arith D}.

(** X24: leaving the loop of lines 390-395 at the first hit does not change
    the verdict: a light is found occluded exactly when some [intersect]
    call of a full pass over the objects along the shadow ray returns true,
    and the search for the nearest object gets no hit on a ray exactly when
    the shadow test on that ray finds nothing in the way. *)
Theorem blocked_is_any_hit (objects : list (Object.t D)) (ray : Ray.t D)
    (tmpdist : D) :
  fst (blocked objects ray tmpdist)
  = existsb (fun r => snd (fst r)) (reports objects ray tmpdist) /\
  misses objects ray tmpdist = negb (fst (blocked objects ray tmpdist)).
Proof.
  split; [| apply misses_not_blocked].
  revert tmpdist. induction objects as [| o rest IH]; intros tmpdist; cbn.
  - reflexivity.
  - destruct (Object.intersect o ray tmpdist) as [[] t]; cbn; auto.
Qed.
End AnyHit.

(** ** The uninitialised [tmpdist] *)

Section Garbage.
Context {D : Type} {arith : Arith D}.

(* A call that decides by itself answers the same whatever the caller's
   distance held, or returns false and leaves it. *)
Lemma decides_fixed (s : Sphere.t D) (ray : Ray.t D) :
  decides s ray = true ->
  (forall t : D, Sphere.intersect s ray t = (false, t)) \/
  (exists (h : bool) (d : D),
     forall t : D, Sphere.intersect s ray t = (h, d)).
Proof.
  unfold decides, Sphere.intersect.
  destruct (Sphere.val3 s ray < dzero); [now left |].
  destruct (Sphere.assigned (Sphere.dist1 s ray) (Sphere.dist2 s ray))
    as [d |]; [| discriminate].
  intros _. right. exists (d > deps), d. reflexivity.
Qed.

Lemma nearest_fold_garbage (spheres : list (Sphere.t D)) (ray : Ray.t D) :
  (forall s : Sphere.t D, In s spheres -> decides s ray = true) ->
  forall (dist tmp tmp' : D) (curo : option (Object.t D)),
    (curo <> None -> tmp = tmp') ->
    let '(d1, t1, c1) :=
      fold_left (nearest_step ray) (map Object.of_Sphere spheres)
        (dist, tmp, curo) in
    let '(d2, t2, c2) :=
      fold_left (nearest_step ray) (map Object.of_Sphere spheres)
        (dist, tmp', curo) in
    d1 = d2 /\ c1 = c2 /\ (c1 <> None -> t1 = t2).
Proof.
  induction spheres as [| s rest IH]; intros Hdec dist tmp tmp' curo Hinv.
  - cbn. auto.
  - cbn [map fold_left nearest_step Object.intersect Object.of_Sphere].
    assert (Hrest : forall s0 : Sphere.t D,
              In s0 rest -> decides s0 ray = true)
      by (intros s0 Hs0; apply Hdec; now right).
    destruct (decides_fixed s ray (Hdec s (or_introl eq_refl)))
      as [Hmiss | (h & d & Hfix)].
    + rewrite !Hmiss. now apply IH.
    + rewrite !Hfix. destruct h; [destruct (d < dist) |];
        apply IH; trivial.
Qed.

Lemma pixel_ignores_garbage (spheres : list (Sphere.t D))
    (lights : list (Light.t D)) (background scolor : Color.t D)
    (ray : Ray.t D) (tmp tmp' : D) :
  (forall s : Sphere.t D, In s spheres -> decides s ray = true) ->
  pixel (map Object.of_Sphere spheres) lights background scolor ray tmp
  = pixel (map Object.of_Sphere spheres) lights background scolor ray tmp'.
Proof.
  intros Hdec. unfold pixel, nearest.
  pose proof (nearest_fold_garbage spheres ray Hdec dmax tmp tmp' None)
    as Hg.
  destruct (fold_left _ _ (dmax, tmp, None)) as [[d1 t1] c1].
  destruct (fold_left _ _ (dmax, tmp', None)) as [[d2 t2] c2].
  destruct Hg as (-> & -> & Ht); [congruence |].
  destruct c2 as [o |]; [| reflexivity].
  now rewrite Ht.
Qed.

(** X25: in a scene of spheres, the colour stored for a pixel does not
    depend on what the uninitialised [tmpdist] holds there, provided that
    every sphere decides by itself on the primary ray of the pixel: its
    discriminant is below zero or one of the two branches of lines 150-154
    assigns a root.  Two runs then store the same colour, on doubles as in
    every arithmetic. *)
Theorem image_ignores_garbage (M_PI : D) (tan : D -> D) (W H : nat)
    (FOV : D) (spheres : list (Sphere.t D)) (lights : list (Light.t D))
    (background scolor : Color.t D) (garbage garbage' : nat -> nat -> D)
    (x y : nat) :
  (x < W)%nat -> (y < H)%nat ->
  (forall s : Sphere.t D,
     In s spheres -> decides s (primary_ray M_PI tan W H FOV x y) = true) ->
  nth_error
    (render M_PI tan W H FOV (map Object.of_Sphere spheres) lights background
       scolor garbage) (y * W + x)%nat
  = nth_error
      (render M_PI tan W H FOV (map Object.of_Sphere spheres) lights
         background scolor garbage') (y * W + x)%nat.
Proof.
  intros Hx Hy Hdec.
  rewrite !render_pixel by assumption. f_equal.
  now apply pixel_ignores_garbage.
Qed.
End Garbage.

Section GarbageDoubles.
Local Open Scope float_scope.

(* The pixel in the middle of the image of [main]. *)
Lemma image_ignores_garbage_witness :
  nth_error (main_image (fun _ _ => 0)) (250 * 800 + 400)
  = nth_error (main_image (fun _ _ => 7)) (250 * 800 + 400).
Proof.
  unfold main_image.
  change main_objects with (map Object.of_Sphere main_spheres).
  apply image_ignores_garbage.
  - lia.
  - lia.
  - intros s Hs. unfold main_spheres in Hs.
    repeat (destruct Hs as [<- | Hs]; [vm_compute; reflexivity |]).
    contradiction.
Defined.

(** Where a sphere does not decide by itself the stored colour follows the
    uninitialised value: the origin is outside this sphere by less than
    the doubles resolve, the roots come out as 2 and 0, and the image of
    one pixel is the background for one value and the ambient term for
    another. *)
Example garbage_shows_when_undecided :
  let ray := primary_ray M_PI_double tan_half_fov 1 1 100 0 0 in
  decides (Sphere.mk (Vec3d.mk 0 0x1p-30 (-1)) 1) ray = false /\
  render M_PI_double tan_half_fov 1 1 100 [near_origin_sphere] main_lights
    main_background main_scolor (fun _ _ => 0)
  = [Color.mk 0 0.5 0.5] /\
  render M_PI_double tan_half_fov 1 1 100 [near_origin_sphere] main_lights
    main_background main_scolor (fun _ _ => 1)
  = [Color.mk 0x1.999999999999ap-4 0 0].
Proof. repeat split; vm_compute; reflexivity. Qed.
End GarbageDoubles.
